(** * PageRank estimators of [pagerank.py]: a shallow embedding

    The Python module estimates PageRank over a corpus, a [dict] from page
    names to the [set] of page names each page links to.  This development
    embeds [transition_model], [sample_pagerank] and [iterate_pagerank] and
    states the properties of the specification over the embedding.

    Modelling conventions.
    - A corpus is a [gmap string (gset string)]; a distribution or a rank
      table is a [gmap string Q].  [for i in corpus] visits the keys in the
      enumeration order of the map.
    - Python floats are modelled as exact rationals ([Q]); values are
      compared with [==] where the order of the additions is not fixed.
    - An exception is a value of [exn]; a computation that can raise returns
      a [result].
    - The [while] loop takes fuel; [iterate_pagerank_fuel] shows that every
      positive amount gives the same run. *)

From Stdlib Require Import QArith Qabs Qminmax Lqa.
From stdpp Require Import gmap strings list fin_maps fin_sets.

Local Open Scope Q_scope.

(** ** Exceptions and the error monad *)

Inductive exn : Type :=
  | KeyError (key : string)
  | ZeroDivisionError
  | TypeError
  | ValueError
  | IndexError.

Inductive result (A : Type) : Type :=
  | Ok (a : A)
  | Err (e : exn).
Arguments Ok {A} a.
Arguments Err {A} e.

(** Sequencing, written [x ← r; k] with the notation of [MBind]. *)
#[global] Instance result_bind : MBind result := λ A B k r,
  match r with
  | Ok a => k a
  | Err e => Err e
  end.

Definition raises {A} (r : result A) : Prop := ∃ e, r = Err e.

(** [for x in xs: body], threading the loop state and stopping at the first
    exception. *)
Fixpoint for_each {S X} (xs : list X) (body : X → S → result S) (s : S)
  : result S :=
  match xs with
  | [] => Ok s
  | x :: xs' => s' ← body x s; for_each xs' body s'
  end.

(** ** Python primitives *)

(** [a / b] on numbers: true division, [ZeroDivisionError] on a zero divisor. *)
Definition py_div (a b : Q) : result Q :=
  if Qeq_bool b 0 then Err ZeroDivisionError else Ok (a / b).

(** [m[k]] on a dict. *)
Definition getitem {V} (m : gmap string V) (k : string) : result V :=
  match m !! k with
  | Some v => Ok v
  | None => Err (KeyError k)
  end.

(** [len(m)] and [len(s)], as numbers. *)
Definition len_dict {V} (m : gmap string V) : Q := inject_Z (Z.of_nat (size m)).
Definition len_set (s : gset string) : Q := inject_Z (Z.of_nat (size s)).

(** Truth value of a set: non-empty. *)
Definition truthy (s : gset string) : bool := negb (bool_decide (s = ∅)).

(** The keys visited by [for i in corpus]. *)
Definition keys {V} (m : gmap string V) : list string := elements (dom m).

(** [sum(m.values())]. *)
Definition Qsum (l : list Q) : Q := foldr Qplus 0 l.
Definition sum_values (m : gmap string Q) : Q := Qsum (map_to_list m).*2.

(** ** [crawl]: resolving the links

    The second loop of [crawl] keeps, for every page, only the links that
    are pages of the corpus.  (The first loop reads the files and is not
    modelled.) *)
Definition resolve_links (pages : gmap string (gset string))
  : result (gmap string (gset string)) :=
  for_each (keys pages) (λ filename pages,
    links ← getitem pages filename;
    Ok (<[filename := filter (λ link, link ∈ dom pages) links]> pages)) pages.

(** ** [transition_model] *)

Definition transition_model (corpus : gmap string (gset string))
    (page : string) (damping_factor : Q) : result (gmap string Q) :=
  let dist : gmap string Q := ∅ in
  let n := len_dict corpus in
  links ← getitem corpus page;
  if truthy links then
    for_each (keys corpus) (λ i dist,
      base ← py_div (1 - damping_factor) n;
      let dist := <[i := base]> dist in
      if bool_decide (i ∈ links) then
        cur ← getitem dist i;
        extra ← py_div damping_factor (len_set links);
        Ok (<[i := cur + extra]> dist)
      else Ok dist) dist
  else
    for_each (keys corpus) (λ i dist,
      v ← py_div 1 n;
      Ok (<[i := v]> dist)) dist.

(** ** [iterate_pagerank] *)

(** The local variables of [iterate_pagerank].  [rank] and [newRank] are two
    distinct dict objects. *)
Record iter_state : Type := IterState {
  rank : gmap string Q;
  newRank : gmap string Q;
  condition : bool
}.

Definition set_rank (r : gmap string Q) (s : iter_state) : iter_state :=
  {| rank := r; newRank := newRank s; condition := condition s |}.
Definition set_newRank (r : gmap string Q) (s : iter_state) : iter_state :=
  {| rank := rank s; newRank := r; condition := condition s |}.
Definition set_condition (b : bool) (s : iter_state) : iter_state :=
  {| rank := rank s; newRank := newRank s; condition := b |}.

(** [math.isclose(a, b, abs_tol=abs_tol)], with the default [rel_tol] of
    [1e-09]: [abs(a-b) <= max(rel_tol * max(abs(a), abs(b)), abs_tol)]. *)
Definition rel_tol : Q := 1 # 1000000000.
Definition isclose (a b abs_tol : Q) : bool :=
  Qle_bool (Qabs (a - b)) (Qmax (rel_tol * Qmax (Qabs a) (Qabs b)) abs_tol).

Definition abs_tol : Q := 1 # 1000.

(** The inner loop over [linkedPage]: the value of [number] for page [i],
    read from the [rank] of the state [s]. *)
Definition accumulate (corpus : gmap string (gset string)) (s : iter_state)
    (i : string) (linkedPage : string) (number : Q) : result Q :=
  links ← getitem corpus linkedPage;
  number ← (if bool_decide (i ∈ links) then
              r ← getitem (rank s) linkedPage;
              q ← py_div r (len_set links);
              Ok (number + q)
            else Ok number);
  links ← getitem corpus linkedPage;
  if negb (truthy links) then
    r ← getitem (rank s) linkedPage;
    q ← py_div r (len_dict corpus);
    Ok (number + q)
  else Ok number.

(** The body of [for i in rank] inside the [while] loop. *)
Definition update_page (corpus : gmap string (gset string))
    (damping_factor : Q) (i : string) (s : iter_state) : result iter_state :=
  number ← for_each (keys corpus) (accumulate corpus s i) 0;
  base ← py_div (1 - damping_factor) (len_dict corpus);
  Ok (set_newRank (<[i := base + damping_factor * number]> (newRank s)) s).

(** The body of the [while] loop: one update pass, then [condition = False]. *)
Definition update_pass (corpus : gmap string (gset string))
    (damping_factor : Q) (s : iter_state) : result iter_state :=
  s ← for_each (keys (rank s)) (update_page corpus damping_factor) s;
  Ok (set_condition false s).

(** [while condition: body].  [None] when the fuel runs out. *)
Fixpoint while_condition (fuel : nat) (body : iter_state → result iter_state)
    (s : iter_state) : option (result iter_state) :=
  if condition s then
    match fuel with
    | O => None
    | S fuel' =>
        match body s with
        | Ok s' => while_condition fuel' body s'
        | Err e => Some (Err e)
        end
    end
  else Some (Ok s).

(** The body of the [for i in rank] loop that follows the [while] loop. *)
Definition compare_page (i : string) (s : iter_state) : result iter_state :=
  new ← getitem (newRank s) i;
  old ← getitem (rank s) i;
  let s := if negb (isclose new old abs_tol) then set_condition true s else s in
  new ← getitem (newRank s) i;
  Ok (set_rank (<[i := new]> (rank s)) s).

Definition iterate_pagerank (fuel : nat) (corpus : gmap string (gset string))
    (damping_factor : Q) : option (result (gmap string Q)) :=
  match for_each (keys corpus) (λ i rank,
          v ← py_div 1 (len_dict corpus);
          Ok (<[i := v]> rank)) ∅ with
  | Err e => Some (Err e)
  | Ok rank0 =>
      let s := {| rank := rank0; newRank := ∅; condition := true |} in
      match while_condition fuel (update_pass corpus damping_factor) s with
      | None => None
      | Some (Err e) => Some (Err e)
      | Some (Ok s) =>
          Some (s ← for_each (keys (rank s)) compare_page s; Ok (rank s))
      end
  end.

(** *** The simultaneous update, as the specification writes it

    [newRank[i] = (1-d)/N + d * Σ_{j links to i} rank[j]/out-degree(j)
                          + d * Σ_{j dangling} rank[j]/N],
    every term read from one snapshot. *)
Definition out_links (corpus : gmap string (gset string)) (j : string)
  : gset string := default ∅ (corpus !! j).
Definition rank_of (snapshot : gmap string Q) (j : string) : Q :=
  default 0 (snapshot !! j).

Definition simultaneous_update (corpus : gmap string (gset string))
    (d : Q) (snapshot : gmap string Q) (i : string) : Q :=
  (1 - d) / len_dict corpus
  + d * Qsum ((λ j, rank_of snapshot j / len_set (out_links corpus j)) <$>
              filter (λ j, i ∈ out_links corpus j) (keys corpus))
  + d * Qsum ((λ j, rank_of snapshot j / len_dict corpus) <$>
              filter (λ j, out_links corpus j = ∅) (keys corpus)).

(** ** [sample_pagerank] *)

(** The values [sample_pagerank] computes with: ints, floats and the dict of
    visit counts. *)
Inductive pyval : Type :=
  | PyInt (z : Z)
  | PyFloat (q : Q)
  | PyDict (m : gmap string Z).

Definition as_number (v : pyval) : option Q :=
  match v with
  | PyInt z => Some (inject_Z z)
  | PyFloat q => Some q
  | PyDict _ => None
  end.

(** [a / b] on values: defined on numbers only. *)
Definition truediv (a b : pyval) : result pyval :=
  match as_number a, as_number b with
  | Some x, Some y => q ← py_div x y; Ok (PyFloat q)
  | _, _ => Err TypeError
  end.

(** [random.choice(seq)] of the standard library has the single parameter
    [seq].  A call that passes a keyword argument the function does not have
    raises [TypeError] when the arguments are bound, before anything is drawn;
    otherwise an empty sequence raises [IndexError] and [draw] selects the
    element. *)
Definition random_choice (seq : list string) (kwargs : list string)
    (draw : nat) : result string :=
  if bool_decide (kwargs = []) then
    match seq !! (draw mod length seq)%nat with
    | Some x => Ok x
    | None => Err IndexError
    end
  else Err TypeError.

(** [s[0]] on a string. *)
Definition str_first (s : string) : result string :=
  match s with
  | EmptyString => Err IndexError
  | String c _ => Ok (String c EmptyString)
  end.

(** [pop, weight]: the items of [model] unzipped into its keys and its
    values; unpacking fails when there is no item. *)
Definition unzip_items (model : gmap string Q)
  : result (list string * list Q) :=
  match map_to_list model with
  | [] => Err ValueError
  | items => Ok (items.*1, items.*2)
  end.

Record sample_state : Type := SampleState {
  temp : option string;
  visits : gmap string Z;
  calls : nat
}.

(** The body of [for i in range(n)].  [draws] is the random source, [calls]
    the number of draws made so far. *)
Definition sample_step (corpus : gmap string (gset string))
    (damping_factor : Q) (draws : nat → nat) (s : sample_state)
  : result sample_state :=
  t ← match temp s with
      | None =>
          c ← random_choice (keys corpus) ["k"] (draws (calls s));
          str_first c
      | Some cur =>
          model ← transition_model corpus cur damping_factor;
          '(pop, weight) ← unzip_items model;
          c ← random_choice pop ["weight"; "k"] (draws (calls s));
          str_first c
      end;
  count ← getitem (visits s) t;
  Ok {| temp := Some t;
        visits := <[t := (count + 1)%Z]> (visits s);
        calls := S (calls s) |}.

Definition sample_pagerank (corpus : gmap string (gset string))
    (damping_factor : Q) (n : Z) (draws : nat → nat) : result pyval :=
  rank ← for_each (keys corpus) (λ i rank, Ok (<[i := 0%Z]> rank)) ∅;
  s ← for_each (seq 0 (Z.to_nat n))
        (λ _ s, sample_step corpus damping_factor draws s)
        {| temp := None; visits := rank; calls := 0 |};
  for_each (keys corpus)
    (λ i finalRank, truediv (PyDict (visits s)) (PyInt n)) (PyInt 0).

(** ** Graphs and the scenarios of the specification *)

(** The links of every page resolve to pages of the corpus, as [crawl]
    leaves them ("only include links to other pages in the corpus"). *)
Definition links_closed (corpus : gmap string (gset string)) : Prop :=
  map_Forall (λ _ links, links ⊆ dom corpus) corpus.

#[global] Instance links_closed_dec corpus : Decision (links_closed corpus).
Proof. unfold links_closed. apply _. Defined.

(** [A -> B], [B -> A]. *)
Definition two_cycle : gmap string (gset string) :=
  <["A" := {["B"]}]> (<["B" := {["A"]}]> ∅).

(** [A -> B], [B] dangling. *)
Definition chain : gmap string (gset string) :=
  <["A" := {["B"]}]> (<["B" := ∅]> ∅).

Definition DAMPING : Q := 85 # 100.

(** ** Closed forms of what the loops compute

    These are not translations of the source: the lemmas below prove that
    the loops compute them.  [transition_prob] is the entry of the
    distribution for [p]; [contribution] is what the inner loop of a pass
    adds to [number] for [linkedPage = j]; [new_rank] is the value stored in
    [newRank[i]]. *)
Definition transition_prob (corpus : gmap string (gset string))
    (links : gset string) (d : Q) (p : string) : Q :=
  if truthy links then
    if bool_decide (p ∈ links)
    then (1 - d) / len_dict corpus + d / len_set links
    else (1 - d) / len_dict corpus
  else 1 / len_dict corpus.

Definition contribution (corpus : gmap string (gset string))
    (snapshot : gmap string Q) (i j : string) : Q :=
  (if decide (i ∈ out_links corpus j)
   then rank_of snapshot j / len_set (out_links corpus j) else 0)
  + (if decide (out_links corpus j = ∅)
     then rank_of snapshot j / len_dict corpus else 0).

Definition new_rank (corpus : gmap string (gset string)) (d : Q)
    (snapshot : gmap string Q) (i : string) : Q :=
  (1 - d) / len_dict corpus
  + d * Qsum (contribution corpus snapshot i <$> keys corpus).

(** The first value of [rank]: [1/N] for every page. *)
Definition initial_rank (corpus : gmap string (gset string)) : gmap string Q :=
  gset_to_gmap (1 / len_dict corpus) (dom corpus).


(** ** [crawl]: reading the directory

    [directory] lists the files as [os.listdir] and [open(...).read()] give
    them, a name with its contents; [findall] stands for the regular
    expression search that extracts the [href] targets of a page. *)

(** [s.endswith(suffix)]: some tail of [s] is [suffix]. *)
Fixpoint endswith (s suffix : string) : bool :=
  String.eqb s suffix ||
  match s with
  | EmptyString => false
  | String _ s' => endswith s' suffix
  end.

(** The first loop of [crawl]: files that do not end in [.html] are
    skipped; a page's links are the set of its targets minus itself. *)
Definition read_pages (findall : string → list string)
    (directory : list (string * string)) : gmap string (gset string) :=
  foldl (λ pages entry,
    let '(filename, contents) := entry in
    if negb (endswith filename ".html") then pages
    else <[filename := list_to_set (findall contents) ∖ {[filename]}]> pages)
    ∅ directory.

(** What the first loop keeps true of the pages read so far: keys end in
    [.html] and no page links to itself. *)
Definition pages_ok (pages : gmap string (gset string)) : Prop :=
  ∀ p links, pages !! p = Some links →
    endswith p ".html" = true ∧ p ∉ links.

Definition crawl (findall : string → list string)
    (directory : list (string * string))
  : result (gmap string (gset string)) :=
  resolve_links (read_pages findall directory).

(** ** The chain that [transition_model] defines

    [transition_entry corpus d j i] is the probability that
    [transition_model] gives to [i] when the current page is [j]. *)
Definition transition_entry (corpus : gmap string (gset string)) (d : Q)
    (j i : string) : Q :=
  match transition_model corpus j d with
  | Ok dist => rank_of dist i
  | Err _ => 0
  end.

(** * Properties *)

(** ** Numbers *)

Lemma py_div_ok (a b : Q) : ¬ b == 0 → py_div a b = Ok (a / b).
Proof.
  intros Hb. unfold py_div.
  destruct (Qeq_bool b 0) eqn:E; [|done].
  by apply Qeq_bool_eq in E.
Qed.

Lemma inject_nat_pos (k : nat) : k ≠ 0%nat → 0 < inject_Z (Z.of_nat k).
Proof.
  intros Hk. change 0 with (inject_Z 0). rewrite <- Zlt_Qlt. lia.
Qed.

Lemma len_dict_pos {V} (m : gmap string V) k v :
  m !! k = Some v → 0 < len_dict m.
Proof.
  intros Hk. apply inject_nat_pos. intros Hsz.
  apply map_size_empty_iff in Hsz. subst m. by rewrite lookup_empty in Hk.
Qed.

Lemma len_set_pos (s : gset string) : s ≠ ∅ → 0 < len_set s.
Proof.
  intros Hs. apply inject_nat_pos. intros Hsz.
  by apply size_empty_iff, leibniz_equiv in Hsz.
Qed.

Lemma Qdiv_pos (a b : Q) : 0 < a → 0 < b → 0 < a / b.
Proof.
  intros Ha Hb. apply Qlt_shift_div_l; [done|]. by rewrite Qmult_0_l.
Qed.

Lemma truthy_true (s : gset string) : truthy s = true ↔ s ≠ ∅.
Proof.
  unfold truthy. rewrite negb_true_iff, bool_decide_eq_false. done.
Qed.

Lemma truthy_false (s : gset string) : truthy s = false ↔ s = ∅.
Proof.
  unfold truthy. rewrite negb_false_iff, bool_decide_eq_true. done.
Qed.

(** ** Loops that fill a dict *)

Lemma elem_of_keys {V} (m : gmap string V) (k : string) :
  k ∈ keys m ↔ k ∈ dom m.
Proof. unfold keys. apply elem_of_elements. Qed.

Lemma getitem_Some {V} (m : gmap string V) k v :
  m !! k = Some v → getitem m k = Ok v.
Proof. intros H. unfold getitem. by rewrite H. Qed.

Lemma getitem_None {V} (m : gmap string V) k :
  m !! k = None → getitem m k = Err (KeyError k).
Proof. intros H. unfold getitem. by rewrite H. Qed.

(** A loop whose body stores [f i] under [i] builds the table of [f] over
    the visited keys and leaves the other entries alone. *)
Lemma for_each_insert {V} (f : string → V) (xs : list string)
    (body : string → gmap string V → result (gmap string V))
    (m0 : gmap string V) :
  (∀ i m, i ∈ xs → body i m = Ok (<[i := f i]> m)) →
  ∃ m, for_each xs body m0 = Ok m ∧
       ∀ p, m !! p = if decide (p ∈ xs) then Some (f p) else m0 !! p.
Proof.
  revert m0. induction xs as [|x xs IH]; intros m0 Hbody; simpl.
  - exists m0. split; [done|]. intros p.
    destruct (decide (p ∈ [])) as [H|H]; [|done]. by apply elem_of_nil in H.
  - rewrite Hbody by left. simpl.
    destruct (IH (<[x := f x]> m0)) as (m & Hm & Hlook).
    { intros i m' Hi. apply Hbody. by right. }
    exists m. split; [done|]. intros p. rewrite Hlook.
    destruct (decide (p ∈ xs)) as [Hin|Hnin].
    + rewrite decide_True by (by right). done.
    + destruct (decide (p = x)) as [->|Hne].
      * rewrite decide_True by left. by rewrite lookup_insert_eq.
      * rewrite decide_False.
        -- by rewrite lookup_insert_ne.
        -- intros [?|?]%elem_of_cons; done.
Qed.

(** ** Sums of rationals over lists and dicts *)

Lemma Qsum_cons (x : Q) (l : list Q) : Qsum (x :: l) = x + Qsum l.
Proof. reflexivity. Qed.

Section sums.
Context {X : Type}.
Implicit Types (f g : X → Q) (l : list X).

Lemma Qsum_perm (l1 l2 : list Q) : l1 ≡ₚ l2 → Qsum l1 == Qsum l2.
Proof.
  induction 1 as [|x l1 l2 _ IH|x y l|l1 l2 l3 _ IH1 _ IH2].
  - reflexivity.
  - rewrite !Qsum_cons. by rewrite IH.
  - rewrite !Qsum_cons. ring.
  - by rewrite IH1.
Qed.

Lemma Qsum_ext f g l :
  (∀ x, x ∈ l → f x == g x) → Qsum (f <$> l) == Qsum (g <$> l).
Proof.
  induction l as [|x l IH]; intros Hfg; [reflexivity|].
  rewrite !fmap_cons, !Qsum_cons.
  rewrite (Hfg x) by left. rewrite IH; [reflexivity|].
  intros y Hy. apply Hfg. by right.
Qed.

Lemma Qsum_plus f g l :
  Qsum ((λ x, f x + g x) <$> l) == Qsum (f <$> l) + Qsum (g <$> l).
Proof.
  induction l as [|x l IH]; [reflexivity|].
  rewrite !fmap_cons, !Qsum_cons, IH. ring.
Qed.

Lemma Qsum_scale (c : Q) f l :
  Qsum ((λ x, c * f x) <$> l) == c * Qsum (f <$> l).
Proof.
  induction l as [|x l IH]; [cbn; ring|].
  rewrite !fmap_cons, !Qsum_cons, IH. ring.
Qed.

Lemma Qsum_const (c : Q) l :
  Qsum ((λ _, c) <$> l) == inject_Z (Z.of_nat (length l)) * c.
Proof.
  induction l as [|x l IH]; [cbn; ring|].
  rewrite fmap_cons, Qsum_cons, IH. cbn [length].
  rewrite Nat2Z.inj_succ, <- Z.add_1_r, inject_Z_plus. ring.
Qed.

Lemma Qsum_zero f l : (∀ x, x ∈ l → f x == 0) → Qsum (f <$> l) == 0.
Proof.
  intros Hf. rewrite (Qsum_ext f (λ _, 0)) by done.
  rewrite Qsum_const. ring.
Qed.

(** A sum restricted by a test is the sum over the filtered list. *)
Lemma Qsum_filter (P : X → Prop) `{∀ x, Decision (P x)} f l :
  Qsum ((λ x, if decide (P x) then f x else 0) <$> l)
  == Qsum (f <$> filter P l).
Proof.
  induction l as [|x l IH]; [reflexivity|].
  rewrite fmap_cons, filter_cons, Qsum_cons, IH.
  destruct (decide (P x)).
  - by rewrite fmap_cons, Qsum_cons.
  - ring.
Qed.
End sums.

(** Exchanging two nested sums. *)
Lemma Qsum_exchange {X Y : Type} (h : X → Y → Q) (l : list X) (k : list Y) :
  Qsum ((λ x, Qsum ((λ y, h x y) <$> k)) <$> l)
  == Qsum ((λ y, Qsum ((λ x, h x y) <$> l)) <$> k).
Proof.
  induction l as [|x l IH].
  - cbn. symmetry. by apply Qsum_zero.
  - rewrite fmap_cons, Qsum_cons, IH, <- Qsum_plus.
    apply Qsum_ext. intros y _. by rewrite fmap_cons, Qsum_cons.
Qed.

(** The values of a dict, summed along its keys. *)
Lemma map_to_list_keys (m : gmap string Q) :
  map_to_list m ≡ₚ (λ i, (i, rank_of m i)) <$> keys m.
Proof.
  apply NoDup_Permutation.
  - apply NoDup_map_to_list.
  - apply NoDup_fmap_2; [|apply NoDup_elements].
    by intros i j [= ->].
  - intros [i x]. rewrite elem_of_map_to_list, list_elem_of_fmap. split.
    + intros Hi. exists i. unfold rank_of. rewrite Hi. split; [done|].
      apply elem_of_keys, elem_of_dom. by eexists.
    + intros (j & [= -> ->] & [v Hj]%elem_of_keys%elem_of_dom).
      unfold rank_of. by rewrite Hj.
Qed.

Lemma sum_values_keys (m : gmap string Q) :
  sum_values m == Qsum (rank_of m <$> keys m).
Proof.
  unfold sum_values. rewrite (Qsum_perm _ (rank_of m <$> keys m)); [reflexivity|].
  rewrite map_to_list_keys, <- list_fmap_compose. done.
Qed.

(** A dict that tabulates [g] over the set [K] sums to the sum of [g]. *)
Lemma sum_values_tabulate (m : gmap string Q) (K : gset string) (g : string → Q) :
  dom m = K →
  (∀ i, i ∈ K → ∃ v, m !! i = Some v ∧ v == g i) →
  sum_values m == Qsum (g <$> elements K).
Proof.
  intros <- Hg. rewrite sum_values_keys. apply Qsum_ext.
  intros i Hi%elem_of_keys. destruct (Hg i Hi) as (v & Hv & Heq).
  unfold rank_of. by rewrite Hv.
Qed.

(** How many keys of [K] fall in a subset [L] of it. *)
Lemma length_filter_subseteq (L K : gset string) :
  L ⊆ K → length (filter (λ i, i ∈ L) (elements K)) = size L.
Proof.
  intros HLK. unfold size, set_size. simpl. apply Permutation_length.
  apply NoDup_Permutation.
  - apply NoDup_filter, NoDup_elements.
  - apply NoDup_elements.
  - intros i. rewrite list_elem_of_filter, !elem_of_elements.
    split; [by intros [? ?]|]. intros Hi. split; [done|]. by apply HLK.
Qed.

(** ** [transition_model] *)

Lemma transition_model_lookup corpus page d links :
  corpus !! page = Some links →
  ∃ dist, transition_model corpus page d = Ok dist ∧
    ∀ p, dist !! p =
         if decide (p ∈ dom corpus)
         then Some (transition_prob corpus links d p) else None.
Proof.
  intros Hpage. unfold transition_model.
  rewrite (getitem_Some _ _ _ Hpage). simpl.
  pose proof (len_dict_pos _ _ _ Hpage) as HN.
  assert (HN0 : ¬ len_dict corpus == 0) by lra.
  destruct (truthy links) eqn:Ht.
  - pose proof (len_set_pos _ (proj1 (truthy_true _) Ht)) as HL.
    assert (HL0 : ¬ len_set links == 0) by lra.
    edestruct (for_each_insert (transition_prob corpus links d) (keys corpus))
      as (dist & Hdist & Hlook); [|exists dist; split; [exact Hdist|]].
    + intros i m _. rewrite (py_div_ok _ _ HN0). simpl.
      unfold transition_prob. rewrite Ht.
      destruct (bool_decide (i ∈ links)); [|done].
      unfold getitem. rewrite lookup_insert_eq. simpl.
      rewrite (py_div_ok _ _ HL0). simpl. by rewrite insert_insert_eq.
    + intros p. rewrite Hlook, lookup_empty.
      destruct (decide (p ∈ dom corpus)) as [Hd|Hd],
        (decide (p ∈ keys corpus)) as [Hk|Hk]; try done.
      * by apply elem_of_keys in Hd.
      * by apply elem_of_keys in Hk.
  - edestruct (for_each_insert (transition_prob corpus links d) (keys corpus))
      as (dist & Hdist & Hlook); [|exists dist; split; [exact Hdist|]].
    + intros i m _. rewrite (py_div_ok _ _ HN0). simpl.
      unfold transition_prob. by rewrite Ht.
    + intros p. rewrite Hlook, lookup_empty.
      destruct (decide (p ∈ dom corpus)) as [Hd|Hd],
        (decide (p ∈ keys corpus)) as [Hk|Hk]; try done.
      * by apply elem_of_keys in Hd.
      * by apply elem_of_keys in Hk.
Qed.

(** C3.  For a page that is a key of the corpus, [transition_model] returns
    a distribution that gives every corpus page [p]: when the page has
    outgoing links, [(1-d)/N], plus [d / out-degree] when [p] is one of
    the links; when the page has no outgoing link, [1/N]. *)
Theorem transition_model_probabilities
    (corpus : gmap string (gset string)) (page : string) (d : Q)
    (links : gset string) :
  corpus !! page = Some links →
  ∃ dist, transition_model corpus page d = Ok dist ∧
    (links ≠ ∅ → ∀ p, p ∈ dom corpus →
       dist !! p = Some (if bool_decide (p ∈ links)
                         then (1 - d) / len_dict corpus + d / len_set links
                         else (1 - d) / len_dict corpus)) ∧
    (links = ∅ → ∀ p, p ∈ dom corpus →
       dist !! p = Some (1 / len_dict corpus)).
Proof.
  intros Hpage.
  destruct (transition_model_lookup corpus page d links Hpage)
    as (dist & Hdist & Hlook).
  exists dist. split; [done|]. split.
  - intros Hne p Hp. rewrite Hlook, decide_True by done.
    unfold transition_prob. apply truthy_true in Hne. by rewrite Hne.
  - intros He p Hp. rewrite Hlook, decide_True by done.
    unfold transition_prob. apply truthy_false in He. by rewrite He.
Qed.

Lemma transition_model_probabilities_witness :
  ∃ dist, transition_model chain "A" DAMPING = Ok dist ∧
    ({["B"]} ≠ (∅ : gset string) → ∀ p, p ∈ dom chain →
       dist !! p = Some (if bool_decide (p ∈ ({["B"]} : gset string))
                         then (1 - DAMPING) / len_dict chain
                              + DAMPING / len_set {["B"]}
                         else (1 - DAMPING) / len_dict chain)) ∧
    ({["B"]} = (∅ : gset string) → ∀ p, p ∈ dom chain →
       dist !! p = Some (1 / len_dict chain)).
Proof.
  apply (transition_model_probabilities chain "A" DAMPING {["B"]}).
  reflexivity.
Defined.

(** C8.  A current page that is not a key of the corpus makes
    [transition_model] fail at once: the lookup [corpus[page]] raises
    [KeyError], the exception Python has for this invalid argument, and no
    distribution is returned. *)
Theorem transition_model_unknown_page
    (corpus : gmap string (gset string)) (page : string) (d : Q) :
  corpus !! page = None →
  transition_model corpus page d = Err (KeyError page).
Proof.
  intros Hpage. unfold transition_model.
  by rewrite (getitem_None _ _ Hpage).
Qed.

Lemma transition_model_unknown_page_witness :
  transition_model chain "C" DAMPING = Err (KeyError "C").
Proof.
  apply (transition_model_unknown_page chain "C" DAMPING). reflexivity.
Defined.

Lemma transition_prob_pos corpus page links d p :
  corpus !! page = Some links → 0 < d → d < 1 →
  0 < transition_prob corpus links d p.
Proof.
  intros Hpage Hd0 Hd1. unfold transition_prob.
  pose proof (len_dict_pos _ _ _ Hpage) as HN.
  destruct (truthy links) eqn:Ht.
  - pose proof (len_set_pos _ (proj1 (truthy_true _) Ht)).
    assert (0 < (1 - d) / len_dict corpus) by (apply Qdiv_pos; lra).
    assert (0 < d / len_set links) by (by apply Qdiv_pos).
    destruct (bool_decide (p ∈ links)); lra.
  - apply Qdiv_pos; lra.
Qed.

(** C10.  For a page that is a key of the corpus and [0 < d < 1], the
    distribution has exactly the keys of the corpus and every probability
    in it is strictly positive. *)
Theorem transition_model_support
    (corpus : gmap string (gset string)) (page : string) (d : Q) :
  page ∈ dom corpus → 0 < d → d < 1 →
  ∃ dist, transition_model corpus page d = Ok dist ∧
    dom dist = dom corpus ∧
    ∀ p, p ∈ dom corpus → ∃ v, dist !! p = Some v ∧ 0 < v.
Proof.
  intros [links Hpage]%elem_of_dom Hd0 Hd1.
  destruct (transition_model_lookup corpus page d links Hpage)
    as (dist & Hdist & Hlook).
  exists dist. split; [done|]. split.
  - apply set_eq. intros p. rewrite (elem_of_dom dist), Hlook.
    case_decide; [|by split; [intros [? ?]|]].
    split; [done|]. by eexists.
  - intros p Hp. eexists. rewrite Hlook, decide_True by done.
    split; [done|]. by eapply transition_prob_pos.
Qed.

Lemma transition_model_support_witness :
  ∃ dist, transition_model chain "B" DAMPING = Ok dist ∧
    dom dist = dom chain ∧
    ∀ p, p ∈ dom chain → ∃ v, dist !! p = Some v ∧ 0 < v.
Proof.
  apply (transition_model_support chain "B" DAMPING).
  - by vm_compute.
  - reflexivity.
  - reflexivity.
Defined.

Lemma length_keys {V} (m : gmap string V) :
  inject_Z (Z.of_nat (length (keys m))) = len_dict m.
Proof. unfold len_dict, keys. by rewrite <- size_dom. Qed.

Lemma transition_prob_sum corpus page links d :
  corpus !! page = Some links → links ⊆ dom corpus →
  Qsum (transition_prob corpus links d <$> keys corpus) == 1.
Proof.
  intros Hpage Hsub.
  pose proof (len_dict_pos _ _ _ Hpage) as HN.
  unfold transition_prob. destruct (truthy links) eqn:Ht.
  - pose proof (len_set_pos _ (proj1 (truthy_true _) Ht)) as HL.
    rewrite (Qsum_ext _ (λ p, (λ _, (1 - d) / len_dict corpus) p +
       (λ p, if decide (p ∈ links) then d / len_set links else 0) p)).
    2:{ intros p _. cbv beta. destruct (decide (p ∈ links)).
        - rewrite bool_decide_eq_true_2 by done. reflexivity.
        - rewrite bool_decide_eq_false_2 by done. ring. }
    rewrite Qsum_plus, Qsum_const, length_keys.
    rewrite (Qsum_filter (λ p, p ∈ links) (λ _, d / len_set links)).
    rewrite Qsum_const. unfold keys.
    rewrite (length_filter_subseteq _ _ Hsub).
    fold (len_set links). field. split; lra.
  - rewrite Qsum_const, length_keys. field. lra.
Qed.

(** C5.  For a corpus whose links resolve to its own pages and a page that
    is one of its keys, the probabilities returned by [transition_model]
    sum to 1 (in exact arithmetic), with or without outgoing links. *)
Theorem transition_model_sums_to_one
    (corpus : gmap string (gset string)) (page : string) (d : Q) :
  links_closed corpus → page ∈ dom corpus →
  ∃ dist, transition_model corpus page d = Ok dist ∧ sum_values dist == 1.
Proof.
  intros Hclosed [links Hpage]%elem_of_dom.
  destruct (transition_model_lookup corpus page d links Hpage)
    as (dist & Hdist & Hlook).
  exists dist. split; [done|].
  rewrite (sum_values_tabulate dist (dom corpus)
             (transition_prob corpus links d)).
  - apply (transition_prob_sum corpus page); [done|]. by eapply Hclosed.
  - apply set_eq. intros p. rewrite (elem_of_dom dist), Hlook.
    destruct (decide (p ∈ dom corpus)); [|by split; [intros [? ?]|]].
    split; [done|]. by eexists.
  - intros p Hp. eexists. rewrite Hlook, decide_True by done.
    split; [done|reflexivity].
Qed.

Lemma transition_model_sums_to_one_witness :
  ∃ dist, transition_model chain "A" DAMPING = Ok dist ∧ sum_values dist == 1.
Proof.
  apply (transition_model_sums_to_one chain "A" DAMPING).
  - apply (bool_decide_unpack (links_closed chain)). vm_compute. exact I.
  - by vm_compute.
Defined.

(** ** [iterate_pagerank]: one update pass *)

Lemma accumulate_step corpus s i j number :
  j ∈ dom corpus → j ∈ dom (rank s) →
  ∃ q, accumulate corpus s i j number = Ok q ∧
       q == number + contribution corpus (rank s) i j.
Proof.
  intros [links Hj]%elem_of_dom [r Hr]%elem_of_dom.
  pose proof (len_dict_pos _ _ _ Hj) as HN.
  assert (HN0 : ¬ len_dict corpus == 0) by lra.
  unfold accumulate, contribution, out_links, rank_of.
  rewrite (getitem_Some _ _ _ Hj), (getitem_Some _ _ _ Hr), Hj, Hr.
  cbn [default from_option id mbind result_bind].
  destruct (decide (i ∈ links)) as [Hi|Hi].
  - assert (Hne : links ≠ ∅) by (intros ->; by apply not_elem_of_empty in Hi).
    pose proof (len_set_pos _ Hne) as HL.
    assert (HL0 : ¬ len_set links == 0) by lra.
    rewrite bool_decide_eq_true_2 by done.
    rewrite (py_div_ok _ _ HL0). cbn [mbind result_bind].
    rewrite (proj2 (truthy_true _) Hne). cbn [negb].
    rewrite decide_False by done.
    eexists. split; [done|]. ring.
  - rewrite bool_decide_eq_false_2 by done. cbn [mbind result_bind].
    destruct (decide (links = ∅)) as [He|Hne].
    + rewrite (proj2 (truthy_false _) He). cbn [negb].
      rewrite (py_div_ok _ _ HN0). cbn [mbind result_bind].
      eexists. split; [done|]. ring.
    + rewrite (proj2 (truthy_true _) Hne). cbn [negb].
      eexists. split; [done|]. ring.
Qed.

Lemma accumulate_loop corpus s i xs number :
  (∀ j, j ∈ xs → j ∈ dom corpus ∧ j ∈ dom (rank s)) →
  ∃ q, for_each xs (accumulate corpus s i) number = Ok q ∧
       q == number + Qsum (contribution corpus (rank s) i <$> xs).
Proof.
  revert number. induction xs as [|x xs IH]; intros number Hxs.
  - exists number. split; [done|]. cbn. ring.
  - destruct (Hxs x) as [Hx1 Hx2]; [left|].
    destruct (accumulate_step corpus s i x number Hx1 Hx2) as (q & Hq & Heq).
    destruct (IH q) as (q' & Hq' & Heq').
    { intros j Hj. apply Hxs. by right. }
    exists q'. cbn [for_each]. rewrite Hq. cbn [mbind result_bind].
    split; [done|]. rewrite Heq', Heq, fmap_cons, Qsum_cons. ring.
Qed.

Lemma update_page_ok corpus d i s :
  dom (rank s) = dom corpus → i ∈ dom corpus →
  ∃ v, update_page corpus d i s
       = Ok (set_newRank (<[i := v]> (newRank s)) s) ∧
       v == new_rank corpus d (rank s) i.
Proof.
  intros Hdom Hi.
  destruct (accumulate_loop corpus s i (keys corpus) 0) as (q & Hq & Heq).
  { intros j Hj%elem_of_keys. by rewrite Hdom. }
  apply elem_of_dom in Hi as [links Hi].
  pose proof (len_dict_pos _ _ _ Hi) as HN.
  assert (HN0 : ¬ len_dict corpus == 0) by lra.
  unfold update_page. rewrite Hq. cbn [mbind result_bind].
  rewrite (py_div_ok _ _ HN0). cbn [mbind result_bind].
  eexists. split; [done|]. unfold new_rank. rewrite Heq. ring.
Qed.

(** The loop [for i in rank] of a pass: [rank] is never written, and every
    [newRank[p]] is computed from the [rank] the pass started with. *)
Lemma update_pages_loop corpus d xs s :
  dom (rank s) = dom corpus → (∀ i, i ∈ xs → i ∈ dom corpus) →
  ∃ s', for_each xs (update_page corpus d) s = Ok s' ∧
    rank s' = rank s ∧ condition s' = condition s ∧
    (∀ p, p ∈ xs →
       ∃ v, newRank s' !! p = Some v ∧ v == new_rank corpus d (rank s) p) ∧
    (∀ p, p ∉ xs → newRank s' !! p = newRank s !! p).
Proof.
  revert s. induction xs as [|x xs IH]; intros s Hdom Hxs.
  - exists s. split; [done|]. split; [done|]. split; [done|].
    split; [|done]. by intros p Hp%elem_of_nil.
  - destruct (update_page_ok corpus d x s Hdom) as (v & Hv & Heq).
    { apply Hxs. left. }
    destruct (IH (set_newRank (<[x := v]> (newRank s)) s))
      as (s' & Hs' & Hrank & Hcond & Hin & Hout); [done| |].
    { intros i Hi. apply Hxs. by right. }
    exists s'. cbn [for_each]. rewrite Hv. cbn [mbind result_bind].
    split; [done|]. split; [done|]. split; [done|]. split.
    + intros p Hp. destruct (decide (p ∈ xs)) as [Hpx|Hpx].
      * by apply Hin.
      * apply elem_of_cons in Hp as [->|Hp]; [|done].
        exists v. rewrite (Hout x Hpx). cbn [newRank set_newRank].
        by rewrite lookup_insert_eq.
    + intros p Hp. apply not_elem_of_cons in Hp as [Hne Hp].
      rewrite (Hout p Hp). cbn [newRank set_newRank].
      by rewrite lookup_insert_ne.
Qed.

Lemma update_pass_ok corpus d s :
  dom (rank s) = dom corpus →
  ∃ s', update_pass corpus d s = Ok s' ∧
    rank s' = rank s ∧ condition s' = false ∧
    (∀ p, p ∈ dom corpus →
       ∃ v, newRank s' !! p = Some v ∧ v == new_rank corpus d (rank s) p) ∧
    (∀ p, p ∉ dom corpus → newRank s' !! p = newRank s !! p).
Proof.
  intros Hdom.
  destruct (update_pages_loop corpus d (keys (rank s)) s Hdom)
    as (s' & Hs' & Hrank & _ & Hin & Hout).
  { intros i Hi%elem_of_keys. by rewrite <- Hdom. }
  exists (set_condition false s'). unfold update_pass.
  rewrite Hs'. cbn [mbind result_bind].
  split; [done|]. split; [done|]. split; [done|]. split.
  - intros p Hp. apply Hin, elem_of_keys. by rewrite Hdom.
  - intros p Hp. apply Hout. rewrite elem_of_keys. by rewrite Hdom.
Qed.

(** The value stored by the code is the simultaneous update of the
    specification. *)
Lemma new_rank_simultaneous corpus d snapshot i :
  new_rank corpus d snapshot i == simultaneous_update corpus d snapshot i.
Proof.
  unfold new_rank, simultaneous_update.
  rewrite <- (Qsum_filter (λ j, i ∈ out_links corpus j)
    (λ j, rank_of snapshot j / len_set (out_links corpus j))).
  rewrite <- (Qsum_filter (λ j, out_links corpus j = ∅)
    (λ j, rank_of snapshot j / len_dict corpus)).
  unfold contribution.
  rewrite (Qsum_plus
    (λ j, if decide (i ∈ out_links corpus j)
          then rank_of snapshot j / len_set (out_links corpus j) else 0)
    (λ j, if decide (out_links corpus j = ∅)
          then rank_of snapshot j / len_dict corpus else 0)).
  ring.
Qed.

(** C4.  One update pass of [iterate_pagerank], started with a [rank] over
    the pages of the corpus, leaves [rank] as it was and stores for every
    page the value of the simultaneous update computed from that [rank]:
    nothing written during the pass is read by it. *)
Theorem update_pass_reads_snapshot
    (corpus : gmap string (gset string)) (d : Q) (s : iter_state) :
  dom (rank s) = dom corpus →
  ∃ s', update_pass corpus d s = Ok s' ∧
    rank s' = rank s ∧
    ∀ i, i ∈ dom corpus →
      ∃ v, newRank s' !! i = Some v ∧
           v == simultaneous_update corpus d (rank s) i.
Proof.
  intros Hdom.
  destruct (update_pass_ok corpus d s Hdom) as (s' & Hs' & Hrank & _ & Hin & _).
  exists s'. split; [done|]. split; [done|].
  intros i Hi. destruct (Hin i Hi) as (v & Hv & Heq).
  exists v. split; [done|]. by rewrite Heq, new_rank_simultaneous.
Qed.

Lemma update_pass_reads_snapshot_witness :
  ∃ s', update_pass chain DAMPING (IterState (initial_rank chain) ∅ true)
        = Ok s' ∧
    rank s' = initial_rank chain ∧
    ∀ i, i ∈ dom chain →
      ∃ v, newRank s' !! i = Some v ∧
           v == simultaneous_update chain DAMPING (initial_rank chain) i.
Proof.
  apply (update_pass_reads_snapshot chain DAMPING
           (IterState (initial_rank chain) ∅ true)).
  vm_compute. reflexivity.
Defined.

(** ** [iterate_pagerank]: the loops around the pass *)

Lemma while_condition_done fuel body s :
  condition s = false → while_condition fuel body s = Some (Ok s).
Proof. intros Hc. destruct fuel; cbn [while_condition]; by rewrite Hc. Qed.

Lemma while_condition_step fuel body s s' :
  condition s = true → body s = Ok s' →
  while_condition (S fuel) body s = while_condition fuel body s'.
Proof. intros Hc Hb. cbn [while_condition]. by rewrite Hc, Hb. Qed.

(** The loop body clears [condition], so the [while] loop runs it once. *)
Lemma while_update_pass fuel corpus d s s' :
  condition s = true → update_pass corpus d s = Ok s' →
  while_condition (S fuel) (update_pass corpus d) s = Some (Ok s').
Proof.
  intros Hc Hpass. rewrite (while_condition_step _ _ _ _ Hc Hpass).
  apply while_condition_done.
  unfold update_pass in Hpass.
  destruct (for_each _ _ s) as [s1|e]; [|done].
  cbn [mbind result_bind] in Hpass. by injection Hpass as <-.
Qed.

Lemma compare_page_ok i s new old :
  newRank s !! i = Some new → rank s !! i = Some old →
  ∃ b, compare_page i s
       = Ok (set_rank (<[i := new]> (rank s)) (set_condition b s)).
Proof.
  intros Hnew Hold. unfold compare_page.
  rewrite (getitem_Some _ _ _ Hnew), (getitem_Some _ _ _ Hold).
  cbn [mbind result_bind].
  destruct (isclose new old abs_tol); cbn [negb].
  - exists (condition s). rewrite (getitem_Some _ _ _ Hnew).
    by destruct s.
  - exists true. cbn [newRank set_condition].
    by rewrite (getitem_Some _ _ _ Hnew).
Qed.

(** The loop after the [while] loop copies [newRank] into [rank]. *)
Lemma compare_loop xs s :
  (∀ i, i ∈ xs → is_Some (newRank s !! i) ∧ is_Some (rank s !! i)) →
  ∃ s', for_each xs compare_page s = Ok s' ∧
    newRank s' = newRank s ∧
    ∀ p, rank s' !! p
         = if decide (p ∈ xs) then newRank s !! p else rank s !! p.
Proof.
  revert s. induction xs as [|x xs IH]; intros s Hxs.
  - exists s. split; [done|]. split; [done|]. intros p.
    destruct (decide (p ∈ [])) as [H|H]; [|done]. by apply elem_of_nil in H.
  - destruct (Hxs x) as [[new Hnew] [old Hold]]; [left|].
    destruct (compare_page_ok x s new old Hnew Hold) as [b Hstep].
    destruct (IH (set_rank (<[x := new]> (rank s)) (set_condition b s)))
      as (s' & Hs' & Hnr & Hlook).
    { intros i Hi. destruct (Hxs i) as [Hi1 Hi2]; [by right|].
      split; [done|]. cbn [rank set_rank].
      rewrite lookup_insert_is_Some. destruct (decide (x = i)); auto. }
    exists s'. cbn [for_each]. rewrite Hstep. cbn [mbind result_bind].
    split; [done|]. split; [done|]. intros p. rewrite Hlook.
    cbn [rank newRank set_rank set_condition].
    destruct (decide (p ∈ xs)) as [Hp|Hp].
    + by rewrite decide_True by (right; done).
    + destruct (decide (p = x)) as [->|Hne].
      * rewrite decide_True by left. by rewrite lookup_insert_eq.
      * rewrite decide_False by (intros [?|?]%elem_of_cons; done).
        by rewrite lookup_insert_ne.
Qed.

Lemma initial_rank_loop corpus :
  for_each (keys corpus) (λ i (rank : gmap string Q),
    v ← py_div 1 (len_dict corpus); Ok (<[i := v]> rank)) ∅
  = Ok (initial_rank corpus).
Proof.
  destruct (for_each_insert (λ _ : string, 1 / len_dict corpus)
              (keys corpus)
              (λ i (rank : gmap string Q),
                 v ← py_div 1 (len_dict corpus); Ok (<[i := v]> rank)) ∅)
    as (m & Hm & Hlook).
  { intros i m [links Hi]%elem_of_keys%elem_of_dom.
    pose proof (len_dict_pos _ _ _ Hi) as HN.
    rewrite py_div_ok by lra. done. }
  rewrite Hm. f_equal. apply map_eq. intros p. rewrite Hlook, lookup_empty.
  unfold initial_rank.
  destruct (decide (p ∈ keys corpus)) as [Hp|Hp].
  - symmetry. apply lookup_gset_to_gmap_Some. by apply elem_of_keys in Hp.
  - symmetry. apply lookup_gset_to_gmap_None. by rewrite <- elem_of_keys.
Qed.

Lemma dom_initial_rank corpus : dom (initial_rank corpus) = dom corpus.
Proof. unfold initial_rank. by rewrite dom_gset_to_gmap. Qed.

(** What [iterate_pagerank] returns, for every corpus and damping factor:
    the result of one update pass over the initial ranks. *)
Lemma iterate_pagerank_result corpus d fuel :
  ∃ r, iterate_pagerank (S fuel) corpus d = Some (Ok r) ∧
    dom r = dom corpus ∧
    ∀ p, p ∈ dom corpus →
      ∃ v, r !! p = Some v ∧
           v == new_rank corpus d (initial_rank corpus) p.
Proof.
  unfold iterate_pagerank. rewrite initial_rank_loop.
  set (s0 := IterState (initial_rank corpus) ∅ true).
  destruct (update_pass_ok corpus d s0 (dom_initial_rank corpus))
    as (s1 & Hs1 & Hrank & _ & Hin & Hout).
  rewrite (while_update_pass fuel corpus d s0 s1 eq_refl Hs1).
  subst s0. cbn [rank newRank] in Hrank, Hin, Hout.
  destruct (compare_loop (keys (rank s1)) s1) as (s2 & Hs2 & _ & Hlook).
  { intros i Hi%elem_of_keys. rewrite Hrank in Hi |- *.
    split; [|by apply elem_of_dom].
    rewrite dom_initial_rank in Hi.
    destruct (Hin i Hi) as (v & Hv & _). by eexists. }
  rewrite Hs2. cbn [mbind result_bind]. eexists. split; [done|].
  assert (Hr : ∀ p, rank s2 !! p = newRank s1 !! p).
  { intros p. rewrite Hlook, Hrank.
    destruct (decide (p ∈ keys (initial_rank corpus))) as [Hp|Hp]; [done|].
    rewrite elem_of_keys in Hp. rewrite (not_elem_of_dom_1 _ _ Hp).
    rewrite dom_initial_rank in Hp. by rewrite (Hout p Hp), lookup_empty. }
  split.
  - apply set_eq. intros p. rewrite elem_of_dom, Hr. split.
    + intros [v Hv]. destruct (decide (p ∈ dom corpus)) as [|Hp]; [done|].
      by rewrite (Hout p Hp), lookup_empty in Hv.
    + intros Hp. destruct (Hin p Hp) as (v & Hv & _). by eexists.
  - intros p Hp. rewrite Hr. by apply Hin.
Qed.

(** More fuel changes nothing: every run is the run with fuel 1. *)
Lemma iterate_pagerank_fuel corpus d fuel :
  iterate_pagerank (S fuel) corpus d = iterate_pagerank 1 corpus d.
Proof.
  destruct (iterate_pagerank_result corpus d fuel) as (r & Hr & _).
  unfold iterate_pagerank in *. rewrite initial_rank_loop in *.
  set (s0 := IterState (initial_rank corpus) ∅ true) in *.
  destruct (update_pass_ok corpus d s0 (dom_initial_rank corpus))
    as (s1 & Hs1 & _).
  by rewrite !(while_update_pass _ corpus d s0 s1 eq_refl Hs1).
Qed.

(** ** [iterate_pagerank]: rank mass *)

Lemma out_links_lookup corpus j links :
  corpus !! j = Some links → out_links corpus j = links.
Proof. intros H. unfold out_links. by rewrite H. Qed.

(** Over all target pages, page [j] hands out exactly its own rank: along
    its links when it has some, uniformly when it is dangling. *)
Lemma contribution_column corpus snapshot j :
  links_closed corpus → j ∈ dom corpus →
  Qsum ((λ i, contribution corpus snapshot i j) <$> keys corpus)
  == rank_of snapshot j.
Proof.
  intros Hclosed [links Hj]%elem_of_dom.
  pose proof (Hclosed j links Hj) as Hsub. cbv beta in Hsub.
  pose proof (len_dict_pos _ _ _ Hj) as HN.
  unfold contribution. rewrite (out_links_lookup _ _ _ Hj).
  rewrite (Qsum_plus
    (λ i, if decide (i ∈ links)
          then rank_of snapshot j / len_set links else 0)
    (λ _, if decide (links = ∅)
          then rank_of snapshot j / len_dict corpus else 0)).
  rewrite (Qsum_filter (λ i, i ∈ links)
             (λ _, rank_of snapshot j / len_set links)).
  rewrite !Qsum_const, length_keys. unfold keys.
  rewrite (length_filter_subseteq _ _ Hsub). fold (len_set links).
  destruct (decide (links = ∅)) as [->|Hne].
  - unfold len_set at 1. rewrite size_empty.
    change (inject_Z (Z.of_nat 0)) with 0. rewrite Qmult_0_l.
    field. lra.
  - pose proof (len_set_pos _ Hne). field. lra.
Qed.

(** One pass keeps a share [1 - d] for the uniform jump and redistributes
    [d] times the whole mass of the snapshot: nothing is lost. *)
Lemma new_rank_mass corpus d snapshot :
  links_closed corpus → corpus ≠ ∅ →
  Qsum (new_rank corpus d snapshot <$> keys corpus)
  == (1 - d) + d * Qsum (rank_of snapshot <$> keys corpus).
Proof.
  intros Hclosed Hne.
  assert (HN : 0 < len_dict corpus).
  { apply inject_nat_pos. by rewrite map_size_empty_iff. }
  unfold new_rank.
  rewrite (Qsum_plus (λ _, (1 - d) / len_dict corpus)
    (λ i, d * Qsum (contribution corpus snapshot i <$> keys corpus))).
  rewrite Qsum_const, length_keys.
  rewrite (Qsum_scale d
    (λ i, Qsum (contribution corpus snapshot i <$> keys corpus))).
  rewrite (Qsum_exchange (λ i j, contribution corpus snapshot i j)).
  rewrite (Qsum_ext _ (rank_of snapshot)).
  - field. lra.
  - intros j Hj%elem_of_keys. by apply contribution_column.
Qed.

Lemma initial_rank_mass corpus :
  corpus ≠ ∅ → Qsum (rank_of (initial_rank corpus) <$> keys corpus) == 1.
Proof.
  intros Hne.
  assert (HN : 0 < len_dict corpus).
  { apply inject_nat_pos. by rewrite map_size_empty_iff. }
  rewrite (Qsum_ext _ (λ _, 1 / len_dict corpus)).
  - rewrite Qsum_const, length_keys. field. lra.
  - intros j Hj%elem_of_keys. unfold rank_of, initial_rank.
    by rewrite (proj2 (lookup_gset_to_gmap_Some _ _ _ _) (conj Hj eq_refl)).
Qed.

(** C6.  For a non-empty corpus whose links resolve to its own pages, the
    ranks returned by [iterate_pagerank] sum to 1 (in exact arithmetic),
    dangling pages included: the rank of a dangling page is spread
    uniformly and no mass is lost. *)
Theorem iterate_pagerank_sums_to_one
    (corpus : gmap string (gset string)) (d : Q) (fuel : nat) :
  links_closed corpus → corpus ≠ ∅ →
  ∃ r, iterate_pagerank (S fuel) corpus d = Some (Ok r) ∧
       sum_values r == 1 ∧ Qabs (sum_values r - 1) <= 1 # 1000000.
Proof.
  intros Hclosed Hne.
  destruct (iterate_pagerank_result corpus d fuel) as (r & Hr & Hdom & Hlook).
  exists r. split; [done|].
  assert (Hsum : sum_values r == 1).
  { rewrite (sum_values_tabulate r (dom corpus)
               (new_rank corpus d (initial_rank corpus)) Hdom Hlook).
    fold (keys corpus).
    rewrite (new_rank_mass _ _ _ Hclosed Hne), (initial_rank_mass _ Hne).
    ring. }
  split; [done|]. by rewrite Hsum.
Qed.

Lemma iterate_pagerank_sums_to_one_witness :
  ∃ r, iterate_pagerank 1 chain DAMPING = Some (Ok r) ∧
       sum_values r == 1 ∧ Qabs (sum_values r - 1) <= 1 # 1000000.
Proof.
  apply (iterate_pagerank_sums_to_one chain DAMPING 0).
  - apply (bool_decide_unpack (links_closed chain)). vm_compute. exact I.
  - apply (bool_decide_unpack (chain ≠ ∅)). vm_compute. exact I.
Defined.

(** C9.  On the two-page graph [A -> B], [B -> A] with damping 0.85,
    [iterate_pagerank] returns rank 1/2 for [A] and for [B]. *)
Theorem iterate_pagerank_two_cycle (fuel : nat) :
  ∃ r a b, iterate_pagerank (S fuel) two_cycle DAMPING = Some (Ok r) ∧
    dom r = {["A"; "B"]} ∧
    r !! "A" = Some a ∧ r !! "B" = Some b ∧ a == 1 # 2 ∧ b == 1 # 2.
Proof.
  rewrite iterate_pagerank_fuel. eexists _, _, _.
  split; [vm_compute; reflexivity|].
  split; [vm_compute; reflexivity|].
  split; [vm_compute; reflexivity|].
  split; [vm_compute; reflexivity|].
  split; vm_compute; reflexivity.
Qed.

(** C1.  [iterate_pagerank] stops after a single update pass, converged or
    not.  On [A -> B] with [B] dangling and damping 0.85, one more pass
    over the returned ranks moves the rank of [A] by more than the
    tolerance 0.001, and [math.isclose] rejects the pair. *)
Theorem iterate_pagerank_returns_unconverged (fuel : nat) :
  ∃ r s' old new,
    iterate_pagerank (S fuel) chain DAMPING = Some (Ok r) ∧
    update_pass chain DAMPING (IterState r ∅ true) = Ok s' ∧
    r !! "A" = Some old ∧ newRank s' !! "A" = Some new ∧
    isclose new old abs_tol = false ∧
    abs_tol < Qabs (new - old).
Proof.
  rewrite iterate_pagerank_fuel. eexists _, _, _, _.
  split; [vm_compute; reflexivity|].
  split; [vm_compute; reflexivity|].
  split; [vm_compute; reflexivity|].
  split; [vm_compute; reflexivity|].
  split; vm_compute; reflexivity.
Qed.

(** ** Arguments are not validated *)

Lemma keys_empty {V} : keys (∅ : gmap string V) = [].
Proof. unfold keys. by rewrite dom_empty_L, elements_empty. Qed.

Lemma iterate_pagerank_empty d fuel :
  iterate_pagerank (S fuel) ∅ d = Some (Ok ∅).
Proof.
  destruct (iterate_pagerank_result ∅ d fuel) as (r & Hr & Hdom & _).
  rewrite Hr. do 2 f_equal. apply dom_empty_iff_L. by rewrite Hdom, dom_empty_L.
Qed.

(** C7, as stated, fails on the empty graph: [iterate_pagerank] returns the
    empty mapping, and no amount of fuel makes it raise. *)
Lemma iterate_pagerank_empty_graph_returns :
  iterate_pagerank 1 ∅ DAMPING = Some (Ok ∅) ∧
  ¬ ∃ fuel e, iterate_pagerank fuel ∅ DAMPING = Some (Err e).
Proof.
  split; [apply iterate_pagerank_empty|].
  intros (fuel & e & H). destruct fuel as [|fuel].
  - vm_compute in H. discriminate.
  - rewrite iterate_pagerank_empty in H. discriminate.
Qed.

Lemma sample_pagerank_empty d n draws :
  (n < 1)%Z → sample_pagerank ∅ d n draws = Ok (PyInt 0).
Proof.
  intros Hn. unfold sample_pagerank. rewrite keys_empty.
  replace (Z.to_nat n) with 0%nat by lia. reflexivity.
Qed.

(** C7, amended.  Neither estimator validates its arguments.
    [iterate_pagerank] never fails: for every corpus, empty or not, and
    every damping factor, inside (0,1) or not, it returns a mapping over the
    pages of the corpus, which for the empty corpus is the empty mapping (no
    division is executed).  [sample_pagerank] on the empty corpus with a
    sample count below 1 raises nothing either. *)
Theorem estimators_do_not_validate
    (corpus : gmap string (gset string)) (d : Q) (fuel : nat)
    (n : Z) (draws : nat → nat) :
  (n < 1)%Z →
  (∃ r, iterate_pagerank (S fuel) corpus d = Some (Ok r) ∧
        dom r = dom corpus) ∧
  iterate_pagerank (S fuel) ∅ d = Some (Ok ∅) ∧
  ¬ raises (sample_pagerank ∅ d n draws).
Proof.
  intros Hn. split; [|split].
  - destruct (iterate_pagerank_result corpus d fuel) as (r & Hr & Hdom & _).
    by exists r.
  - apply iterate_pagerank_empty.
  - rewrite (sample_pagerank_empty _ _ _ Hn). by intros [e He].
Qed.

Lemma estimators_do_not_validate_witness :
  (∃ r, iterate_pagerank 1 two_cycle (3 # 2) = Some (Ok r) ∧
        dom r = dom two_cycle) ∧
  iterate_pagerank 1 ∅ (3 # 2) = Some (Ok ∅) ∧
  ¬ raises (sample_pagerank ∅ (3 # 2) 0 (λ _, 0%nat)).
Proof.
  apply (estimators_do_not_validate two_cycle (3 # 2) 0 0 (λ _, 0%nat)).
  reflexivity.
Defined.

(** ** [sample_pagerank] *)

Lemma random_choice_keyword seq kw kwargs draw :
  random_choice seq (kw :: kwargs) draw = Err TypeError.
Proof. unfold random_choice. by rewrite bool_decide_eq_false_2. Qed.

(** The first step of the walk calls [random.choice] with the keyword [k]. *)
Lemma sample_step_first corpus d draws visits calls :
  sample_step corpus d draws (SampleState None visits calls) = Err TypeError.
Proof.
  unfold sample_step. cbn [temp]. by rewrite random_choice_keyword.
Qed.

(** C2.  For every corpus, damping factor and sample count [n >= 1],
    [sample_pagerank] returns no mapping: the first step of the walk raises
    [TypeError], whatever the random source draws. *)
Theorem sample_pagerank_raises
    (corpus : gmap string (gset string)) (d : Q) (n : Z)
    (draws : nat → nat) :
  (1 ≤ n)%Z → sample_pagerank corpus d n draws = Err TypeError.
Proof.
  intros Hn. unfold sample_pagerank.
  destruct (for_each_insert (λ _ : string, 0%Z) (keys corpus)
              (λ i (rank : gmap string Z), Ok (<[i := 0%Z]> rank)) ∅)
    as (m & Hm & _); [done|].
  rewrite Hm. cbn [mbind result_bind].
  destruct (Z.to_nat n) as [|k] eqn:Hk; [lia|].
  cbn [seq for_each]. by rewrite sample_step_first.
Qed.

Lemma sample_pagerank_raises_witness :
  sample_pagerank two_cycle DAMPING 1 (λ _, 0%nat) = Err TypeError.
Proof.
  apply (sample_pagerank_raises two_cycle DAMPING 1 (λ _, 0%nat)).
  reflexivity.
Defined.

(** ** The corpus built by [crawl] *)

Lemma resolve_links_loop xs (pages : gmap string (gset string)) :
  (∀ i, i ∈ xs → i ∈ dom pages) →
  ∃ corpus,
    for_each xs (λ filename (pages : gmap string (gset string)),
      links ← getitem pages filename;
      Ok (<[filename := filter (λ link, link ∈ dom pages) links]> pages))
      pages = Ok corpus ∧
    dom corpus = dom pages ∧
    (∀ p links, p ∈ xs → corpus !! p = Some links → links ⊆ dom pages) ∧
    (∀ p, p ∉ xs → corpus !! p = pages !! p).
Proof.
  revert pages. induction xs as [|x xs IH]; intros pages Hxs.
  - exists pages. split; [done|]. split; [done|]. split; [|done].
    by intros p links Hp%elem_of_nil.
  - assert (Hxd : x ∈ dom pages) by (apply Hxs; left).
    destruct (proj1 (elem_of_dom pages x) Hxd) as [links Hx].
    set (pages1 := <[x := filter (λ link, link ∈ dom pages) links]> pages).
    assert (Hdom1 : dom pages1 = dom pages).
    { unfold pages1. rewrite dom_insert_L. apply set_eq. intros p.
      rewrite elem_of_union, elem_of_singleton.
      split; [by intros [->|?]|by right]. }
    destruct (IH pages1) as (corpus & Hloop & Hdom & Hin & Hout).
    { intros i Hi. rewrite Hdom1. apply Hxs. by right. }
    exists corpus. cbn [for_each]. rewrite (getitem_Some _ _ _ Hx).
    cbn [mbind result_bind]. fold pages1.
    split; [done|]. split; [by rewrite Hdom, Hdom1|]. split.
    + intros p links' Hp Hlook. destruct (decide (p ∈ xs)) as [Hpx|Hpx].
      * rewrite <- Hdom1. by eapply Hin.
      * apply elem_of_cons in Hp as [->|Hp]; [|done].
        rewrite (Hout x Hpx) in Hlook. unfold pages1 in Hlook.
        rewrite lookup_insert_eq in Hlook. injection Hlook as <-.
        intros link Hlink. by apply elem_of_filter in Hlink as [? _].
    + intros p Hp. apply not_elem_of_cons in Hp as [Hne Hp].
      rewrite (Hout p Hp). unfold pages1. by rewrite lookup_insert_ne.
Qed.

(** [crawl] hands the estimators a corpus whose links are closed. *)
Lemma resolve_links_closed (pages : gmap string (gset string)) :
  ∃ corpus, resolve_links pages = Ok corpus ∧
    dom corpus = dom pages ∧ links_closed corpus.
Proof.
  destruct (resolve_links_loop (keys pages) pages)
    as (corpus & Hloop & Hdom & Hin & _).
  { by intros i Hi%elem_of_keys. }
  exists corpus. split; [done|]. split; [done|].
  intros p links Hp. cbv beta. rewrite Hdom. eapply Hin; [|done].
  apply elem_of_keys. rewrite <- Hdom. apply elem_of_dom. by eexists.
Qed.

(** ** [crawl] *)

Lemma resolve_links_loop_exact xs (pages : gmap string (gset string)) :
  NoDup xs → (∀ i, i ∈ xs → i ∈ dom pages) →
  ∃ corpus,
    for_each xs (λ filename (pages : gmap string (gset string)),
      links ← getitem pages filename;
      Ok (<[filename := filter (λ link, link ∈ dom pages) links]> pages))
      pages = Ok corpus ∧
    ∀ p, corpus !! p
         = if decide (p ∈ xs)
           then filter (λ link, link ∈ dom pages) <$> pages !! p
           else pages !! p.
Proof.
  intros Hnd. revert pages.
  induction Hnd as [|x xs Hx Hnd IH]; intros pages Hxs.
  - exists pages. split; [done|]. intros p.
    destruct (decide (p ∈ [])) as [H|H]; [|done]. by apply elem_of_nil in H.
  - assert (Hxd : x ∈ dom pages) by (apply Hxs; left).
    destruct (proj1 (elem_of_dom pages x) Hxd) as [links Hlinks].
    set (pages1 := <[x := filter (λ link, link ∈ dom pages) links]> pages).
    assert (Hdom1 : dom pages1 = dom pages).
    { unfold pages1. rewrite dom_insert_L. apply set_eq. intros p.
      rewrite elem_of_union, elem_of_singleton.
      split; [by intros [->|?]|by right]. }
    destruct (IH pages1) as (corpus & Hloop & Hlook).
    { intros i Hi. rewrite Hdom1. apply Hxs. by right. }
    exists corpus. cbn [for_each]. rewrite (getitem_Some _ _ _ Hlinks).
    cbn [mbind result_bind]. fold pages1. split; [done|].
    intros p. rewrite Hlook, Hdom1.
    destruct (decide (p ∈ xs)) as [Hp|Hp].
    + rewrite decide_True by (by right).
      assert (p ≠ x) by (by intros ->).
      unfold pages1. by rewrite lookup_insert_ne.
    + destruct (decide (p = x)) as [->|Hne].
      * rewrite decide_True by left. unfold pages1.
        by rewrite lookup_insert_eq, Hlinks.
      * rewrite decide_False by (intros [?|?]%elem_of_cons; done).
        unfold pages1. by rewrite lookup_insert_ne.
Qed.

Lemma resolve_links_fmap (pages : gmap string (gset string)) :
  resolve_links pages
  = Ok ((λ links, filter (λ link, link ∈ dom pages) links) <$> pages).
Proof.
  destruct (resolve_links_loop_exact (keys pages) pages)
    as (corpus & Hloop & Hlook).
  { apply NoDup_elements. }
  { by intros i Hi%elem_of_keys. }
  unfold resolve_links. rewrite Hloop. f_equal. apply map_eq. intros p.
  rewrite Hlook, lookup_fmap.
  destruct (decide (p ∈ keys pages)) as [Hp|Hp]; [done|].
  rewrite elem_of_keys in Hp. by rewrite (not_elem_of_dom_1 _ _ Hp).
Qed.

(** X1.  The second loop of [crawl] never fails and returns the corpus in
    which every page keeps exactly those of its links that are pages. *)
Theorem resolve_links_filters (pages : gmap string (gset string)) :
  ∃ corpus, resolve_links pages = Ok corpus ∧
    dom corpus = dom pages ∧
    ∀ p links, pages !! p = Some links →
      corpus !! p = Some (filter (λ link, link ∈ dom pages) links).
Proof.
  eexists. split; [apply resolve_links_fmap|]. split.
  - by rewrite dom_fmap_L.
  - intros p links Hp. by rewrite lookup_fmap, Hp.
Qed.

(** X2.  On a corpus whose links are already closed the second loop of
    [crawl] changes nothing. *)
Theorem resolve_links_idempotent (corpus : gmap string (gset string)) :
  links_closed corpus → resolve_links corpus = Ok corpus.
Proof.
  intros Hclosed. rewrite resolve_links_fmap. f_equal.
  apply map_eq. intros p. rewrite lookup_fmap.
  destruct (corpus !! p) as [links|] eqn:Hp; [|done].
  cbn. f_equal. apply set_eq. intros link. rewrite elem_of_filter.
  split; [by intros [_ ?]|]. intros Hl. split; [|done].
  by apply (Hclosed p links Hp).
Qed.

Lemma resolve_links_idempotent_witness : resolve_links chain = Ok chain.
Proof.
  apply (resolve_links_idempotent chain).
  apply (bool_decide_unpack (links_closed chain)). vm_compute. exact I.
Defined.

Lemma endswith_suffix (s suffix : string) :
  endswith s suffix = true ↔ ∃ stem, s = (stem +:+ suffix)%string.
Proof.
  induction s as [|c s IH]; cbn [endswith].
  - rewrite orb_false_r, String.eqb_eq. split.
    + intros <-. by exists EmptyString.
    + intros [stem Hs]. destruct stem; [done|discriminate].
  - rewrite orb_true_iff, String.eqb_eq, IH. split.
    + intros [<-|[stem ->]]; [by exists EmptyString|by exists (String c stem)].
    + intros [[|c' stem] Hs]; [by left|].
      right. exists stem. by injection Hs.
Qed.

Lemma read_pages_loop (findall : string → list string)
    (directory : list (string * string)) (acc : gmap string (gset string)) :
  let pages := foldl (λ pages entry,
    let '(filename, contents) := entry in
    if negb (endswith filename ".html") then pages
    else <[filename := list_to_set (findall contents) ∖ {[filename]}]> pages)
    acc directory in
  (pages_ok acc → pages_ok pages) ∧
  ∀ p, p ∈ dom pages ↔
       p ∈ dom acc ∨ (p ∈ directory.*1 ∧ endswith p ".html" = true).
Proof.
  revert acc. induction directory as [|[filename contents] directory IH];
    intros acc; cbn [foldl fmap list_fmap].
  - split; [done|]. intros p. split; [by left|].
    intros [?|[Hp _]]; [done|]. by apply elem_of_nil in Hp.
  - destruct (endswith filename ".html") eqn:Hend; cbn [negb].
    + match goal with |- context [foldl _ ?a directory] =>
        destruct (IH a) as [Hok Hdom] end.
      split.
      * intros Hacc. apply Hok. intros p links.
        destruct (decide (p = filename)) as [->|Hne].
        -- rewrite lookup_insert_eq. intros [= <-]. split; [done|].
           rewrite elem_of_difference, elem_of_singleton. by intros [_ ?].
        -- rewrite lookup_insert_ne by done. apply Hacc.
      * intros p. rewrite Hdom, dom_insert_L, elem_of_union,
          elem_of_singleton, elem_of_cons. cbn [fst]. split.
        -- intros [[->|?]|[? ?]]; auto.
        -- intros [?|[[->|?] ?]]; auto.
    + destruct (IH acc) as [Hok Hdom]. split; [done|].
      intros p. rewrite Hdom, elem_of_cons. cbn [fst]. split.
      * intros [?|[? ?]]; auto.
      * intros [?|[[->|?] Hp]]; auto. congruence.
Qed.

Lemma crawl_result (findall : string → list string)
    (directory : list (string * string)) :
  crawl findall directory
  = Ok ((λ links,
           filter (λ link, link ∈ dom (read_pages findall directory)) links)
        <$> read_pages findall directory).
Proof. apply resolve_links_fmap. Qed.

(** X3.  [crawl] returns a graph: its pages are exactly the listed files
    whose name ends in [.html], no page links to itself, and every link
    leads to a page of the corpus. *)
Theorem crawl_graph (findall : string → list string)
    (directory : list (string * string)) :
  ∃ corpus, crawl findall directory = Ok corpus ∧
    (∀ p, p ∈ dom corpus ↔
          p ∈ directory.*1 ∧ ∃ stem, p = (stem +:+ ".html")%string) ∧
    (∀ p links, corpus !! p = Some links → p ∉ links) ∧
    links_closed corpus.
Proof.
  destruct (resolve_links_closed (read_pages findall directory))
    as (corpus & Hcorpus & Hdom & Hclosed).
  exists corpus. split; [done|].
  destruct (read_pages_loop findall directory ∅) as [Hok Hkeys].
  fold (read_pages findall directory) in Hok, Hkeys.
  split; [|split; [|done]].
  - intros p. rewrite Hdom, Hkeys, dom_empty_L, <- endswith_suffix.
    split; [intros [H|?]; [by apply not_elem_of_empty in H|done]|by right].
  - intros p links Hp Hself.
    unfold crawl in Hcorpus. rewrite resolve_links_fmap in Hcorpus.
    injection Hcorpus as <-. rewrite lookup_fmap in Hp.
    destruct (read_pages findall directory !! p) as [links0|] eqn:Hp0;
      [|done].
    injection Hp as <-. apply elem_of_filter in Hself as [_ Hself].
    assert (Hempty : pages_ok ∅) by (intros q l Hq; by rewrite lookup_empty in Hq).
    by destruct (Hok Hempty p links0 Hp0) as [_ Hnot].
Qed.

(** ** [transition_model]: failure and bounds *)


Lemma inject_nat_ge_1 (k : nat) : k ≠ 0%nat → 1 <= inject_Z (Z.of_nat k).
Proof.
  intros Hk. change 1 with (inject_Z 1). rewrite <- Zle_Qle. lia.
Qed.

Lemma Qdiv_le_self (a b : Q) : 0 <= a → 1 <= b → a / b <= a.
Proof.
  intros Ha Hb. apply Qle_shift_div_r; [lra|].
  assert (0 <= a * (b - 1)) by (apply Qmult_le_0_compat; lra). lra.
Qed.

Lemma transition_prob_le_1 corpus page links d p :
  corpus !! page = Some links → 0 <= d → d <= 1 →
  transition_prob corpus links d p <= 1.
Proof.
  intros Hpage Hd0 Hd1. unfold transition_prob.
  assert (HN : 1 <= len_dict corpus).
  { apply inject_nat_ge_1. intros Hsz. apply map_size_empty_iff in Hsz.
    subst corpus. by rewrite lookup_empty in Hpage. }
  assert (H1 : (1 - d) / len_dict corpus <= 1 - d)
    by (apply Qdiv_le_self; lra).
  destruct (truthy links) eqn:Ht.
  - assert (HL : 1 <= len_set links).
    { apply inject_nat_ge_1. intros Hsz.
      apply size_empty_iff, leibniz_equiv in Hsz.
      by apply (proj1 (truthy_true _) Ht). }
    assert (H2 : d / len_set links <= d) by (by apply Qdiv_le_self).
    destruct (bool_decide (p ∈ links)); lra.
  - apply Qdiv_le_self; lra.
Qed.

Lemma transition_prob_nonneg corpus page links d p :
  corpus !! page = Some links → 0 <= d → d <= 1 →
  0 <= transition_prob corpus links d p.
Proof.
  intros Hpage Hd0 Hd1. unfold transition_prob.
  pose proof (len_dict_pos _ _ _ Hpage) as HN.
  assert (H1 : 0 <= (1 - d) / len_dict corpus).
  { apply Qle_shift_div_l; [done|]. lra. }
  destruct (truthy links) eqn:Ht.
  - pose proof (len_set_pos _ (proj1 (truthy_true _) Ht)) as HL.
    assert (H2 : 0 <= d / len_set links).
    { apply Qle_shift_div_l; [done|]. lra. }
    destruct (bool_decide (p ∈ links)); lra.
  - apply Qle_shift_div_l; [done|]. lra.
Qed.

Lemma transition_model_unknown_page_aux corpus page d :
  corpus !! page = None →
  transition_model corpus page d = Err (KeyError page).
Proof.
  intros Hpage. unfold transition_model. by rewrite (getitem_None _ _ Hpage).
Qed.

(** X5.  For a damping factor in [0,1], every probability returned by
    [transition_model] lies between 0 and 1. *)
Theorem transition_model_bounds
    (corpus : gmap string (gset string)) (page : string) (d : Q)
    (dist : gmap string Q) (p : string) (v : Q) :
  0 <= d → d <= 1 →
  transition_model corpus page d = Ok dist → dist !! p = Some v →
  0 <= v ∧ v <= 1.
Proof.
  intros Hd0 Hd1 Hdist Hp.
  destruct (corpus !! page) as [links|] eqn:Hpage.
  - destruct (transition_model_lookup corpus page d links Hpage)
      as (dist' & Hdist' & Hlook).
    rewrite Hdist in Hdist'. injection Hdist' as <-.
    rewrite Hlook in Hp. destruct (decide (p ∈ dom corpus)); [|done].
    injection Hp as <-. split.
    + by eapply transition_prob_nonneg.
    + by eapply transition_prob_le_1.
  - rewrite (transition_model_unknown_page_aux corpus page d Hpage) in Hdist.
    done.
Qed.

Lemma transition_model_bounds_witness :
  0 <= 18500 # 20000 ∧ 18500 # 20000 <= 1.
Proof.
  apply (transition_model_bounds chain "A" DAMPING
           (<["A" := 15 # 200]> (<["B" := 18500 # 20000]> ∅)) "B").
  - by vm_compute.
  - by vm_compute.
  - vm_compute. reflexivity.
  - vm_compute. reflexivity.
Defined.

(** ** The update pass as a step of the chain of [transition_model] *)

Lemma transition_entry_prob corpus d j i links :
  corpus !! j = Some links → i ∈ dom corpus →
  transition_entry corpus d j i = transition_prob corpus links d i.
Proof.
  intros Hj Hi. unfold transition_entry.
  destruct (transition_model_lookup corpus j d links Hj)
    as (dist & Hdist & Hlook).
  rewrite Hdist. unfold rank_of. by rewrite Hlook, decide_True.
Qed.

(** The share of the rank of [j] that reaches [i]: the uniform jump and the
    contribution that the inner loop of the pass adds. *)
Lemma transition_entry_contribution corpus d snapshot j i :
  j ∈ dom corpus → i ∈ dom corpus →
  rank_of snapshot j * transition_entry corpus d j i
  == rank_of snapshot j * ((1 - d) / len_dict corpus)
     + d * contribution corpus snapshot i j.
Proof.
  intros [links Hj]%elem_of_dom Hi.
  rewrite (transition_entry_prob _ _ _ _ _ Hj Hi).
  pose proof (len_dict_pos _ _ _ Hj) as HN.
  unfold transition_prob, contribution.
  rewrite (out_links_lookup _ _ _ Hj).
  destruct (truthy links) eqn:Ht.
  - pose proof (proj1 (truthy_true _) Ht) as Hne.
    pose proof (len_set_pos _ Hne) as HL.
    rewrite (decide_False (P := links = ∅)) by done.
    destruct (decide (i ∈ links)).
    + rewrite bool_decide_eq_true_2 by done. field. split; lra.
    + rewrite bool_decide_eq_false_2 by done. field. lra.
  - pose proof (proj1 (truthy_false _) Ht) as ->.
    rewrite decide_False by apply not_elem_of_empty.
    rewrite decide_True by done. field. lra.
Qed.

Lemma new_rank_markov corpus d snapshot i :
  i ∈ dom corpus →
  Qsum (rank_of snapshot <$> keys corpus) == 1 →
  new_rank corpus d snapshot i
  == Qsum ((λ j, rank_of snapshot j * transition_entry corpus d j i)
           <$> keys corpus).
Proof.
  intros Hi Hmass.
  rewrite (Qsum_ext _
    (λ j, (λ j, rank_of snapshot j * ((1 - d) / len_dict corpus)) j
          + (λ j, d * contribution corpus snapshot i j) j)).
  2:{ intros j Hj%elem_of_keys. cbv beta.
      by apply transition_entry_contribution. }
  rewrite Qsum_plus.
  rewrite (Qsum_ext (λ j, rank_of snapshot j * ((1 - d) / len_dict corpus))
             (λ j, (1 - d) / len_dict corpus * rank_of snapshot j))
    by (intros; ring).
  rewrite !Qsum_scale, Hmass. unfold new_rank. ring.
Qed.

(** X6.  Started with ranks over the pages of the corpus that sum to 1, an
    update pass of [iterate_pagerank] is one step of the Markov chain of
    [transition_model]: the new rank of [i] is the sum over the pages [j]
    of the rank of [j] times the probability [transition_model] gives to
    [i] from [j].  The two estimators treat dangling pages alike. *)
Theorem update_pass_markov_step
    (corpus : gmap string (gset string)) (d : Q) (s : iter_state) :
  dom (rank s) = dom corpus → sum_values (rank s) == 1 →
  ∃ s', update_pass corpus d s = Ok s' ∧
    ∀ i, i ∈ dom corpus →
      ∃ v, newRank s' !! i = Some v ∧
        v == Qsum ((λ j, rank_of (rank s) j * transition_entry corpus d j i)
                   <$> keys corpus).
Proof.
  intros Hdom Hmass.
  destruct (update_pass_ok corpus d s Hdom) as (s' & Hs' & _ & _ & Hin & _).
  exists s'. split; [done|]. intros i Hi.
  destruct (Hin i Hi) as (v & Hv & Heq). exists v. split; [done|].
  rewrite Heq. apply new_rank_markov; [done|].
  rewrite <- Hmass, sum_values_keys. unfold keys. by rewrite Hdom.
Qed.

Lemma update_pass_markov_step_witness :
  ∃ s', update_pass chain DAMPING (IterState (initial_rank chain) ∅ true)
        = Ok s' ∧
    ∀ i, i ∈ dom chain →
      ∃ v, newRank s' !! i = Some v ∧
        v == Qsum ((λ j, rank_of (initial_rank chain) j
                         * transition_entry chain DAMPING j i)
                   <$> keys chain).
Proof.
  apply (update_pass_markov_step chain DAMPING
           (IterState (initial_rank chain) ∅ true)).
  - vm_compute. reflexivity.
  - vm_compute. reflexivity.
Defined.

(** X7.  On a non-empty corpus with closed links, an update pass turns
    ranks of total mass [m] into ranks of total mass [(1 - d) + d * m]; mass
    1 is kept, dangling pages or not. *)
Theorem update_pass_mass
    (corpus : gmap string (gset string)) (d : Q) (s : iter_state) :
  links_closed corpus → corpus ≠ ∅ →
  dom (rank s) = dom corpus → dom (newRank s) ⊆ dom corpus →
  ∃ s', update_pass corpus d s = Ok s' ∧
    sum_values (newRank s') == (1 - d) + d * sum_values (rank s).
Proof.
  intros Hclosed Hne Hdom Hsub.
  destruct (update_pass_ok corpus d s Hdom)
    as (s' & Hs' & _ & _ & Hin & Hout).
  exists s'. split; [done|].
  rewrite (sum_values_tabulate (newRank s') (dom corpus)
             (new_rank corpus d (rank s))).
  - fold (keys corpus). rewrite (new_rank_mass _ _ _ Hclosed Hne).
    rewrite sum_values_keys. unfold keys. by rewrite Hdom.
  - apply set_eq. intros p. rewrite elem_of_dom. split.
    + intros [v Hv]. destruct (decide (p ∈ dom corpus)) as [|Hp]; [done|].
      rewrite (Hout p Hp) in Hv. apply Hsub, elem_of_dom. by eexists.
    + intros Hp. destruct (Hin p Hp) as (v & Hv & _). by eexists.
  - done.
Qed.

Lemma update_pass_mass_witness :
  ∃ s', update_pass chain DAMPING (IterState (initial_rank chain) ∅ true)
        = Ok s' ∧
    sum_values (newRank s')
    == (1 - DAMPING) + DAMPING * sum_values (initial_rank chain).
Proof.
  apply (update_pass_mass chain DAMPING
           (IterState (initial_rank chain) ∅ true)).
  - apply (bool_decide_unpack (links_closed chain)). vm_compute. exact I.
  - apply (bool_decide_unpack (chain ≠ ∅)). vm_compute. exact I.
  - vm_compute. reflexivity.
  - apply (bool_decide_unpack (_ ⊆ _)). vm_compute. exact I.
Defined.

(** ** What [iterate_pagerank] returns *)

Lemma rank_of_initial corpus j :
  j ∈ dom corpus → rank_of (initial_rank corpus) j = 1 / len_dict corpus.
Proof.
  intros Hj. unfold rank_of, initial_rank.
  by rewrite (proj2 (lookup_gset_to_gmap_Some _ _ _ _) (conj Hj eq_refl)).
Qed.

Lemma dom_nonempty {V} (m : gmap string V) i : i ∈ dom m → m ≠ ∅.
Proof. intros Hi ->. by rewrite dom_empty_L in Hi. Qed.

(** X8.  For every corpus and damping factor, [iterate_pagerank] returns
    the single simultaneous update of the uniform ranks [1/N]: the value of
    page [i] is [(1-d)/N + d * (Σ_{j links to i} (1/N)/out-degree(j)
    + Σ_{j dangling} (1/N)/N)]. *)
Theorem iterate_pagerank_one_pass
    (corpus : gmap string (gset string)) (d : Q) (fuel : nat) :
  ∃ r, iterate_pagerank (S fuel) corpus d = Some (Ok r) ∧
    dom r = dom corpus ∧
    ∀ i, i ∈ dom corpus →
      ∃ v, r !! i = Some v ∧
           v == simultaneous_update corpus d (initial_rank corpus) i.
Proof.
  destruct (iterate_pagerank_result corpus d fuel) as (r & Hr & Hdom & Hlook).
  exists r. split; [done|]. split; [done|]. intros i Hi.
  destruct (Hlook i Hi) as (v & Hv & Heq). exists v. split; [done|].
  by rewrite Heq, new_rank_simultaneous.
Qed.

Lemma iterate_pagerank_rows corpus d fuel :
  ∃ r, iterate_pagerank (S fuel) corpus d = Some (Ok r) ∧
    dom r = dom corpus ∧
    ∀ i, i ∈ dom corpus →
      ∃ v, r !! i = Some v ∧
        v == Qsum ((λ j, transition_entry corpus d j i) <$> keys corpus)
             / len_dict corpus.
Proof.
  destruct (iterate_pagerank_result corpus d fuel) as (r & Hr & Hdom & Hlook).
  exists r. split; [done|]. split; [done|]. intros i Hi.
  destruct (Hlook i Hi) as (v & Hv & Heq). exists v. split; [done|].
  pose proof (dom_nonempty _ _ Hi) as Hne.
  assert (HN : 0 < len_dict corpus).
  { apply inject_nat_pos. by rewrite map_size_empty_iff. }
  rewrite Heq, (new_rank_markov _ _ _ _ Hi (initial_rank_mass _ Hne)).
  rewrite (Qsum_ext _
    (λ j, 1 / len_dict corpus * transition_entry corpus d j i)).
  - rewrite Qsum_scale. field. lra.
  - intros j Hj%elem_of_keys. by rewrite (rank_of_initial _ _ Hj).
Qed.

(** X9.  The rank [iterate_pagerank] returns for a page is the average,
    over all current pages, of the probability [transition_model] gives to
    that page. *)
Theorem iterate_pagerank_average_transition
    (corpus : gmap string (gset string)) (d : Q) (fuel : nat) :
  ∃ r, iterate_pagerank (S fuel) corpus d = Some (Ok r) ∧
    ∀ i, i ∈ dom corpus →
      ∃ v, r !! i = Some v ∧
        v == Qsum ((λ j, transition_entry corpus d j i) <$> keys corpus)
             / len_dict corpus.
Proof.
  destruct (iterate_pagerank_rows corpus d fuel) as (r & Hr & _ & Hlook).
  by exists r.
Qed.

Section sum_bounds.
Context {X : Type} (f : X → Q) (l : list X).

Lemma Qsum_pos : l ≠ [] → (∀ x, x ∈ l → 0 < f x) → 0 < Qsum (f <$> l).
Proof.
  induction l as [|x l' IH]; [done|]. intros _ Hf.
  rewrite fmap_cons, Qsum_cons.
  assert (0 < f x) by (apply Hf; left).
  destruct l' as [|y l'']; [cbn; lra|].
  assert (0 < Qsum (f <$> y :: l'')).
  { apply IH; [done|]. intros z Hz. apply Hf. by right. }
  lra.
Qed.

Lemma Qsum_le_length :
  (∀ x, x ∈ l → f x <= 1) →
  Qsum (f <$> l) <= inject_Z (Z.of_nat (length l)).
Proof.
  induction l as [|x l' IH]; intros Hf.
  - change (0 <= 0). lra.
  - rewrite fmap_cons, Qsum_cons. cbn [length].
    rewrite Nat2Z.inj_succ, <- Z.add_1_r, inject_Z_plus.
    assert (f x <= 1) by (apply Hf; left).
    assert (Qsum (f <$> l') <= inject_Z (Z.of_nat (length l'))).
    { apply IH. intros z Hz. apply Hf. by right. }
    change (inject_Z 1) with 1. lra.
Qed.
End sum_bounds.

(** X10.  For a damping factor strictly between 0 and 1, every rank
    returned by [iterate_pagerank] is positive and at most 1, whatever the
    corpus. *)
Theorem iterate_pagerank_bounds
    (corpus : gmap string (gset string)) (d : Q) (fuel : nat) :
  0 < d → d < 1 →
  ∃ r, iterate_pagerank (S fuel) corpus d = Some (Ok r) ∧
    ∀ i v, r !! i = Some v → 0 < v ∧ v <= 1.
Proof.
  intros Hd0 Hd1.
  destruct (iterate_pagerank_rows corpus d fuel) as (r & Hr & Hdom & Hlook).
  exists r. split; [done|]. intros i v Hv.
  assert (Hi : i ∈ dom corpus).
  { rewrite <- Hdom. apply elem_of_dom. by eexists. }
  destruct (Hlook i Hi) as (v' & Hv' & Heq).
  rewrite Hv in Hv'. injection Hv' as <-.
  pose proof (dom_nonempty _ _ Hi) as Hne.
  assert (HN : 0 < len_dict corpus).
  { apply inject_nat_pos. by rewrite map_size_empty_iff. }
  assert (Hpos : 0 < Qsum ((λ j, transition_entry corpus d j i)
                           <$> keys corpus)).
  { apply Qsum_pos.
    - intros Hnil. apply elem_of_keys in Hi. rewrite Hnil in Hi.
      by apply elem_of_nil in Hi.
    - intros j [links Hj]%elem_of_keys%elem_of_dom.
      rewrite (transition_entry_prob _ _ _ _ _ Hj Hi).
      by eapply transition_prob_pos. }
  assert (Hle : Qsum ((λ j, transition_entry corpus d j i) <$> keys corpus)
                <= len_dict corpus).
  { rewrite <- length_keys. apply Qsum_le_length.
    intros j [links Hj]%elem_of_keys%elem_of_dom.
    rewrite (transition_entry_prob _ _ _ _ _ Hj Hi).
    eapply transition_prob_le_1; [done|lra|lra]. }
  rewrite Heq. split.
  - by apply Qdiv_pos.
  - apply Qle_shift_div_r; [done|]. lra.
Qed.

Lemma iterate_pagerank_bounds_witness :
  ∃ r, iterate_pagerank 1 chain DAMPING = Some (Ok r) ∧
    ∀ i v, r !! i = Some v → 0 < v ∧ v <= 1.
Proof.
  apply (iterate_pagerank_bounds chain DAMPING 0); reflexivity.
Defined.

Lemma contribution_dangling corpus snapshot i j :
  corpus !! j = Some ∅ →
  contribution corpus snapshot i j == rank_of snapshot j / len_dict corpus.
Proof.
  intros Hj. unfold contribution. rewrite (out_links_lookup _ _ _ Hj).
  rewrite decide_False by apply not_elem_of_empty.
  rewrite decide_True by done. ring.
Qed.

(** X11.  On a corpus in which no page has an outgoing link,
    [iterate_pagerank] returns [1/N] for every page; a single page without
    links gets rank 1. *)
Theorem iterate_pagerank_all_dangling
    (corpus : gmap string (gset string)) (d : Q) (fuel : nat) :
  (∀ p links, corpus !! p = Some links → links = ∅) →
  ∃ r, iterate_pagerank (S fuel) corpus d = Some (Ok r) ∧
    dom r = dom corpus ∧
    ∀ i, i ∈ dom corpus → ∃ v, r !! i = Some v ∧ v == 1 / len_dict corpus.
Proof.
  intros Hdangling.
  destruct (iterate_pagerank_result corpus d fuel) as (r & Hr & Hdom & Hlook).
  exists r. split; [done|]. split; [done|]. intros i Hi.
  destruct (Hlook i Hi) as (v & Hv & Heq). exists v. split; [done|].
  pose proof (dom_nonempty _ _ Hi) as Hne.
  assert (HN : 0 < len_dict corpus).
  { apply inject_nat_pos. by rewrite map_size_empty_iff. }
  rewrite Heq. unfold new_rank.
  rewrite (Qsum_ext _ (λ _, 1 / len_dict corpus / len_dict corpus)).
  - rewrite Qsum_const, length_keys. field. lra.
  - intros j Hj%elem_of_keys.
    destruct (proj1 (elem_of_dom corpus j) Hj) as [links Hlinks].
    rewrite (Hdangling j links Hlinks) in Hlinks.
    by rewrite (contribution_dangling _ _ _ _ Hlinks), (rank_of_initial _ _ Hj).
Qed.

Lemma iterate_pagerank_all_dangling_witness :
  ∃ r, iterate_pagerank 1 {["A" := ∅]} DAMPING = Some (Ok r) ∧
    dom r = dom ({["A" := ∅]} : gmap string (gset string)) ∧
    ∀ i, i ∈ dom ({["A" := ∅]} : gmap string (gset string)) →
      ∃ v, r !! i = Some v ∧
           v == 1 / len_dict ({["A" := ∅]} : gmap string (gset string)).
Proof.
  apply (iterate_pagerank_all_dangling {["A" := ∅]} DAMPING 0).
  intros p links Hp. apply lookup_singleton_Some in Hp as [_ <-]. done.
Defined.

(** ** [sample_pagerank]: every run *)

Lemma visits_loop (corpus : gmap string (gset string)) :
  ∃ visits, for_each (keys corpus)
              (λ i (rank : gmap string Z), Ok (<[i := 0%Z]> rank)) ∅
            = Ok visits.
Proof.
  destruct (for_each_insert (λ _ : string, 0%Z) (keys corpus)
              (λ i (rank : gmap string Z), Ok (<[i := 0%Z]> rank)) ∅)
    as (m & Hm & _); [done|]. by exists m.
Qed.

Lemma sample_pagerank_positive corpus d n draws :
  (1 ≤ n)%Z → sample_pagerank corpus d n draws = Err TypeError.
Proof.
  intros Hn. unfold sample_pagerank.
  destruct (visits_loop corpus) as [m Hm].
  rewrite Hm. cbn [mbind result_bind].
  destruct (Z.to_nat n) as [|k] eqn:Hk; [lia|].
  cbn [seq for_each]. by rewrite sample_step_first.
Qed.

Lemma keys_nonempty {V} (m : gmap string V) :
  m ≠ ∅ → ∃ x xs, keys m = x :: xs.
Proof.
  intros Hne. destruct (keys m) as [|x xs] eqn:Hk; [|by eauto].
  exfalso. apply Hne. apply dom_empty_iff_L.
  unfold keys in Hk. by apply elements_empty_inv, leibniz_equiv in Hk.
Qed.

(** X12.  With a sample count below 1 and a non-empty corpus,
    [sample_pagerank] raises [TypeError]: no step is sampled, and the final
    loop divides the dict [rank] by [n]. *)
Theorem sample_pagerank_no_samples
    (corpus : gmap string (gset string)) (d : Q) (n : Z)
    (draws : nat → nat) :
  (n < 1)%Z → corpus ≠ ∅ →
  sample_pagerank corpus d n draws = Err TypeError.
Proof.
  intros Hn Hne. unfold sample_pagerank.
  destruct (visits_loop corpus) as [m Hm].
  rewrite Hm. cbn [mbind result_bind].
  replace (Z.to_nat n) with 0%nat by lia. cbn [seq for_each mbind result_bind].
  destruct (keys_nonempty corpus Hne) as (x & xs & ->).
  reflexivity.
Qed.

Lemma sample_pagerank_no_samples_witness :
  sample_pagerank two_cycle DAMPING 0 (λ _, 0%nat) = Err TypeError.
Proof.
  apply (sample_pagerank_no_samples two_cycle DAMPING 0 (λ _, 0%nat)).
  - reflexivity.
  - apply (bool_decide_unpack (two_cycle ≠ ∅)). vm_compute. exact I.
Defined.

(** X13.  The only run of [sample_pagerank] that returns is the one on the
    empty corpus with a sample count below 1, and it returns the integer 0:
    no input makes it return a mapping. *)
Theorem sample_pagerank_returns_only_zero
    (corpus : gmap string (gset string)) (d : Q) (n : Z)
    (draws : nat → nat) (v : pyval) :
  sample_pagerank corpus d n draws = Ok v →
  v = PyInt 0 ∧ corpus = ∅ ∧ (n < 1)%Z.
Proof.
  intros Hv. destruct (decide (1 ≤ n)%Z) as [Hn|Hn].
  { by rewrite (sample_pagerank_positive _ _ _ _ Hn) in Hv. }
  assert (Hn' : (n < 1)%Z) by lia.
  destruct (decide (corpus = ∅)) as [->|Hne].
  - rewrite (sample_pagerank_empty _ _ _ Hn') in Hv. by injection Hv as <-.
  - unfold sample_pagerank in Hv.
    destruct (visits_loop corpus) as [m Hm].
    rewrite Hm in Hv. cbn [mbind result_bind] in Hv.
    replace (Z.to_nat n) with 0%nat in Hv by lia.
    cbn [seq for_each mbind result_bind] in Hv.
    destruct (keys_nonempty corpus Hne) as (x & xs & Hk).
    rewrite Hk in Hv. discriminate.
Qed.

Lemma sample_pagerank_returns_only_zero_witness :
  PyInt 0 = PyInt 0 ∧ (∅ : gmap string (gset string)) = ∅ ∧ (0 < 1)%Z.
Proof.
  apply (sample_pagerank_returns_only_zero ∅ DAMPING 0 (λ _, 0%nat)).
  reflexivity.
Defined.

(** X14.  A later step of the walk fails too: from a current page of the
    corpus, the distribution is computed and unzipped, and the call of
    [random.choice] with the keywords [weight] and [k] raises
    [TypeError]. *)
Theorem sample_step_later
    (corpus : gmap string (gset string)) (d : Q) (draws : nat → nat)
    (cur : string) (visits : gmap string Z) (calls : nat) :
  cur ∈ dom corpus →
  sample_step corpus d draws (SampleState (Some cur) visits calls)
  = Err TypeError.
Proof.
  intros Hcur. destruct (proj1 (elem_of_dom corpus cur) Hcur) as [links Hl].
  destruct (transition_model_lookup corpus cur d links Hl)
    as (dist & Hdist & Hlook).
  unfold sample_step. cbn [temp]. rewrite Hdist. cbn [mbind result_bind].
  unfold unzip_items.
  destruct (map_to_list dist) as [|item items] eqn:Hitems.
  - apply map_to_list_empty_iff in Hitems. subst dist.
    specialize (Hlook cur). rewrite lookup_empty, decide_True in Hlook; done.
  - cbn [mbind result_bind]. by rewrite random_choice_keyword.
Qed.

Lemma sample_step_later_witness :
  sample_step two_cycle DAMPING (λ _, 0%nat) (SampleState (Some "A") ∅ 1)
  = Err TypeError.
Proof.
  apply (sample_step_later two_cycle DAMPING (λ _, 0%nat) "A" ∅ 1).
  by vm_compute.
Defined.

(** ** From the directory to the ranks *)



